(** * Admission proxy of EnvolveAI.Bot (api-proxy/cloudflare-worker.js)

    A shallow embedding of the Cloudflare Worker that stands in front of the
    Gemini API: origin allow-listing, the per-IP fixed-window rate limiter
    kept in a module-level [Map], input validation and truncation, and the
    CORS headers of every response.  The worker's state (the [Map]) is
    passed explicitly; whatever it obtains from outside (the clock, the
    parsed request body, the upstream answer) is an argument of the model. *)

From Stdlib Require Import ZArith NArith Ascii String List Lia PrimFloat DecimalString.
From stdpp Require Import base option list gmap.

Local Open Scope Z_scope.
#[local] Set Warnings "-register-all,-inexact-float".

(** ** JavaScript strings

    A JavaScript string is a sequence of 16-bit code units; [length],
    [substring] and [includes] count code units.  String constants of the
    worker are written as Rocq literals (UTF-8 in this file) and turned into
    code units by [js]. *)

Definition js_string := list N.

Fixpoint utf16_of_utf8 (bs : list N) : js_string :=
  match bs with
  | [] => []
  | b0 :: r0 =>
    if (b0 <? 128)%N then b0 :: utf16_of_utf8 r0
    else
      match r0 with
      | [] => []
      | b1 :: r1 =>
        if (b0 <? 224)%N then
          N.lor (N.shiftl (N.land b0 31) 6) (N.land b1 63) :: utf16_of_utf8 r1
        else
          match r1 with
          | [] => []
          | b2 :: r2 =>
            if (b0 <? 240)%N then
              N.lor (N.shiftl (N.land b0 15) 12)
                (N.lor (N.shiftl (N.land b1 63) 6) (N.land b2 63))
              :: utf16_of_utf8 r2
            else
              match r2 with
              | [] => []
              | b3 :: r3 =>
                let cp :=
                  N.lor (N.shiftl (N.land b0 7) 18)
                    (N.lor (N.shiftl (N.land b1 63) 12)
                       (N.lor (N.shiftl (N.land b2 63) 6) (N.land b3 63))) in
                let v := (cp - 65536)%N in
                (55296 + N.shiftr v 10)%N :: (56320 + N.land v 1023)%N
                :: utf16_of_utf8 r3
              end
          end
      end
  end.

Definition js (s : string) : js_string :=
  utf16_of_utf8 (map N_of_ascii (list_ascii_of_string s)).

(** [hay.includes(needle)] for strings: [needle] occurs as a contiguous run
    of code units. *)
Fixpoint starts_with (needle hay : js_string) : bool :=
  match needle, hay with
  | [], _ => true
  | _ :: _, [] => false
  | a :: n', b :: h' => (a =? b)%N && starts_with n' h'
  end.

Fixpoint includes (needle hay : js_string) : bool :=
  starts_with needle hay ||
  match hay with
  | [] => false
  | _ :: h' => includes needle h'
  end.

(** [s.substring(start, end)]: both indices are clamped to the length and
    swapped when out of order. *)
Definition substring (start end_ : nat) (s : js_string) : js_string :=
  let a := Nat.min start (length s) in
  let b := Nat.min end_ (length s) in
  let lo := Nat.min a b in
  let hi := Nat.max a b in
  take (hi - lo) (drop lo s).

(** ** Configuration *)

Definition ALLOWED_ORIGINS : list js_string :=
  [ js "https://envolveai.bot";
    js "https://www.envolveai.bot";
    js "http://localhost:5500";
    js "http://127.0.0.1:5500" ].

Definition RATE_LIMIT_REQUESTS : Z := 30.
Definition RATE_LIMIT_WINDOW : Z := 60 * 1000.

(** ** The rate-limit cache

    [rateLimitCache] is a [Map] from key strings to mutable records
    [{ count, resetAt }].  Both fields are JavaScript numbers holding
    integers: [resetAt] is a [Date.now()] reading plus the window (time
    values are bounded by 8.64e15 in absolute value, so the sum is exact),
    and [count] starts at 1 and grows by [count++], which is exact below
    2^53 and leaves 2^53 where it is. *)

Record RateRecord := mkRate { count : Z; resetAt : Z }.

Definition MAX_SAFE_SUCC : Z := 2 ^ 53.

Definition js_incr (c : Z) : Z := if c <? MAX_SAFE_SUCC then c + 1 else c.

Definition rateKey (ip : js_string) : js_string := js "rate_" ++ ip.

(** The record a new window starts with, and a record after [count++]. *)
Definition fresh (now : Z) : RateRecord := mkRate 1 (now + RATE_LIMIT_WINDOW).

Definition bumped (rec : RateRecord) : RateRecord :=
  mkRate (js_incr (count rec)) (resetAt rec).

(** [cleanupRateLimit]: delete every entry with [now > record.resetAt]. *)
Definition cleanupRateLimit (now : Z) (cache : gmap js_string RateRecord)
  : gmap js_string RateRecord :=
  filter (λ kr, ¬ (resetAt kr.2 < now)) cache.

(** [checkRateLimit].  [Date.now()] is read once here ([now]) and once
    inside [cleanupRateLimit] ([sweepNow]).  The result is the returned
    boolean and the cache after the call; [record.count++] mutates the
    record held by the map, which is written back under its key. *)
Definition checkRateLimit (now sweepNow : Z) (ip : js_string)
    (cache : gmap js_string RateRecord) : bool * gmap js_string RateRecord :=
  let key := rateKey ip in
  let cache := cleanupRateLimit sweepNow cache in
  match cache !! key with
  | None =>
      (true, <[key := fresh now]> cache)
  | Some record =>
      if resetAt record <? now then
        (true, <[key := fresh now]> cache)
      else
        let record := bumped record in
        let cache := <[key := record]> cache in
        if RATE_LIMIT_REQUESTS <? count record then (false, cache)
        else (true, cache)
  end.

(** ** JavaScript values

    The values the handler touches: what [JSON.parse] yields, plus
    [undefined] for a missing property.  Numbers are IEEE doubles.  An
    object is the list of its own properties, in insertion order, with
    distinct keys. *)

Inductive js_value :=
| JUndefined
| JNull
| JBool (b : bool)
| JNum (x : float)
| JStr (s : js_string)
| JArr (xs : list js_value)
| JObj (props : list (js_string * js_value)).

(** A computation that may throw; the payload is [error.message]. *)
Inductive result (A : Type) :=
| Ok (a : A)
| Throw (message : js_value).
Arguments Ok {A} a.
Arguments Throw {A} message.

(** ToBoolean. *)
Definition truthy (v : js_value) : bool :=
  match v with
  | JUndefined | JNull => false
  | JBool b => b
  | JNum x => negb (PrimFloat.eqb x 0%float) && PrimFloat.eqb x x
  | JStr s => negb (bool_decide (s = []))
  | JArr _ | JObj _ => true
  end.

Definition typeof (v : js_value) : js_string :=
  match v with
  | JUndefined => js "undefined"
  | JNull => js "object"
  | JBool _ => js "boolean"
  | JNum _ => js "number"
  | JStr _ => js "string"
  | JArr _ | JObj _ => js "object"
  end.

Fixpoint own_property (name : js_string) (props : list (js_string * js_value))
  : js_value :=
  match props with
  | [] => JUndefined
  | (k, v) :: rest => if bool_decide (k = name) then v else own_property name rest
  end.

(** [v.name] for the two names the handler reads, [message] and [contents]:
    no prototype defines them, so only own properties of an object answer;
    reading a property of [null] or [undefined] throws a TypeError. *)
Definition get_prop (v : js_value) (name : js_string) : result js_value :=
  match v with
  | JUndefined =>
      Throw (JStr (js "Cannot read properties of undefined (reading '"
                   ++ name ++ js "')"))
  | JNull =>
      Throw (JStr (js "Cannot read properties of null (reading '"
                   ++ name ++ js "')"))
  | JObj props => Ok (own_property name props)
  | JBool _ | JNum _ | JStr _ | JArr _ => Ok JUndefined
  end.

(** [v.substring(0, 1000)]: defined on strings only. *)
Definition call_substring (v : js_value) (start end_ : nat) : result js_string :=
  match v with
  | JStr s => Ok (substring start end_ s)
  | JUndefined | JNull =>
      Throw (JStr (js "Cannot read properties of undefined (reading 'substring')"))
  | _ => Throw (JStr (js "body.message.substring is not a function"))
  end.

(** ** Requests, responses and the outside world *)

Record Request := mkRequest {
  method : js_string;
  (** [request.headers.get('Origin')], [None] for [null] *)
  header_Origin : option js_string;
  (** [request.headers.get('CF-Connecting-IP')] *)
  header_CF_Connecting_IP : option js_string;
  (** what [await request.json()] gives *)
  request_json : result js_value
}.

(** A [Response]; [body] holds the value whose [JSON.stringify] is the body
    text, [None] for a [null] body. *)
Record Response := mkResponse {
  status : Z;
  headers : list (js_string * js_string);
  body : option js_value
}.

Record UpstreamRequest := mkUpstreamRequest {
  up_url : js_string;
  up_method : js_string;
  up_headers : list (js_string * js_string);
  (** the value passed to [JSON.stringify] *)
  up_body : js_value
}.

Record UpstreamResponse := mkUpstreamResponse {
  up_status : Z;
  (** [await geminiResponse.text()] *)
  up_text : result js_string;
  (** [await geminiResponse.json()] *)
  up_json : result js_value
}.

(** [response.ok]: status in the range 200-299. *)
Definition up_ok (r : UpstreamResponse) : bool :=
  (200 <=? up_status r) && (up_status r <=? 299).

(** What one run of the handler does to the outside, in order. *)
Inductive Event :=
| EvFetch (rq : UpstreamRequest)
| EvConsoleError (label : js_string) (arg : js_value).

(** The body of the [try] block: a result or a thrown error, and the events
    produced on the way. *)
Definition Eff (A : Type) : Type := result A * list Event.

#[global] Instance Eff_ret : MRet Eff := λ A a, (Ok a, []).
#[global] Instance Eff_bind : MBind Eff := λ A B k m,
  match m with
  | (Throw e, t) => (Throw e, t)
  | (Ok a, t) => let '(r, t') := k a in (r, t ++ t')
  end.

Definition lift {A} (r : result A) : Eff A := (r, []).
Definition console_error (label : js_string) (arg : js_value) : Eff unit :=
  (Ok tt, [EvConsoleError label arg]).
Definition global_fetch (upstream : UpstreamRequest → result UpstreamResponse)
    (rq : UpstreamRequest) : Eff UpstreamResponse :=
  (upstream rq, [EvFetch rq]).

(** ** Responses *)

Definition default_arg {A} (d : A) (arg : option A) : A :=
  match arg with Some a => a | None => d end.

(** The statuses that go without a body. *)
Definition null_body_status (status : Z) : bool :=
  (status =? 101) || (status =? 103) || (status =? 204) || (status =? 205)
  || (status =? 304).

(** [new Response(body, { status, headers })].  The constructor throws a
    RangeError for a status outside 200-599 and a TypeError for a body
    given together with a status that goes without one; the texts are the
    Workers runtime's. *)
Definition newResponse (body : option js_value) (status : Z)
    (headers : list (js_string * js_string)) : result Response :=
  if (status <? 200) || (599 <? status) then
    Throw (JStr (js "Responses may only be constructed with status codes in the range 200 to 599, inclusive."))
  else if bool_decide (is_Some body) && null_body_status status then
    Throw (JStr (js "Response with null body status (101, 204, 205, or 304) cannot have a body."))
  else Ok (mkResponse status headers body).

(** A call that cannot throw, with the evidence that it does not. *)
Definition is_ok {A} (r : result A) : Prop :=
  match r with Ok _ => True | Throw _ => False end.

Definition from_ok {A} (r : result A) : is_ok r → A :=
  match r with
  | Ok a => λ _, a
  | Throw _ => λ H, match H with end
  end.

(** [handleCORS]. *)
Definition handleCORS : Response :=
  from_ok
    (newResponse None 204
       [ (js "Access-Control-Allow-Origin", js "*");
         (js "Access-Control-Allow-Methods", js "POST, OPTIONS");
         (js "Access-Control-Allow-Headers", js "Content-Type");
         (js "Access-Control-Max-Age", js "86400") ])
    I.

(** [jsonResponse(data, status = 200, origin = '*')]; an omitted argument is
    [None].  The call throws when the constructor does. *)
Definition jsonHeaders (origin : js_string) : list (js_string * js_string) :=
  [ (js "Content-Type", js "application/json");
    (js "Access-Control-Allow-Origin", origin);
    (js "Access-Control-Allow-Methods", js "POST, OPTIONS");
    (js "Access-Control-Allow-Headers", js "Content-Type");
    (js "X-Content-Type-Options", js "nosniff");
    (js "X-Frame-Options", js "DENY");
    (js "X-XSS-Protection", js "1; mode=block") ].

Definition jsonResponse (data : js_value) (status : option Z)
    (origin : option js_string) : result Response :=
  newResponse (Some data) (default_arg 200 status)
    (jsonHeaders (default_arg (js "*") origin)).

(** The value of a response header, as the caller reads it. *)
Fixpoint header (name : js_string) (hs : list (js_string * js_string))
  : option js_string :=
  match hs with
  | [] => None
  | (k, v) :: rest => if bool_decide (k = name) then Some v else header name rest
  end.

(** ** The handler *)

Record Env := mkEnv { GEMINI_API_KEY : js_string }.

(** [ALLOWED_ORIGINS.includes(origin)]: [null] is no member. *)
Definition array_includes (xs : list js_string) (x : option js_string) : bool :=
  match x with
  | None => false
  | Some s => bool_decide (s ∈ xs)
  end.

(** [origin?.includes(marker)], as the condition reads it: [undefined]
    (for a [null] origin) counts as false. *)
Definition optional_includes (marker : js_string) (x : option js_string) : bool :=
  match x with
  | None => false
  | Some s => includes marker s
  end.

Definition LOOPBACK_MARKER : js_string := js "127.0.0.1".

(** The condition of the origin check, negated: the request passes. *)
Definition origin_passes (origin : option js_string) : bool :=
  array_includes ALLOWED_ORIGINS origin || optional_includes LOOPBACK_MARKER origin.

(** [request.headers.get('CF-Connecting-IP') || 'unknown']. *)
Definition clientIP (request : Request) : js_string :=
  match header_CF_Connecting_IP request with
  | Some ip => if truthy (JStr ip) then ip else js "unknown"
  | None => js "unknown"
  end.

(** A header value given as [null] is written as the text "null". *)
Definition header_value (v : option js_string) : js_string :=
  match v with Some s => s | None => js "null" end.

Definition GEMINI_URL : js_string :=
  js "https://generativelanguage.googleapis.com/v1beta/models/gemini-2.0-flash-exp:generateContent".

Definition single_turn (text : js_string) : js_value :=
  JArr [ JObj [ (js "parts", JArr [ JObj [ (js "text", JStr text) ] ]) ] ].

Definition generationConfig : js_value :=
  JObj [ (js "temperature", JNum 0.7%float);
         (js "maxOutputTokens", JNum 500%float);
         (js "topP", JNum 0.95%float);
         (js "topK", JNum 40%float) ].

(** [{ contents: body.contents || [...], generationConfig: {...} }]. *)
Definition geminiRequest (contents : js_value) (sanitizedMessage : js_string)
  : js_value :=
  JObj [ (js "contents",
          if truthy contents then contents else single_turn sanitizedMessage);
         (js "generationConfig", generationConfig) ].

Definition upstreamRequest (env : Env) (payload : js_value) : UpstreamRequest :=
  mkUpstreamRequest GEMINI_URL (js "POST")
    [ (js "Content-Type", js "application/json");
      (js "x-goog-api-key", GEMINI_API_KEY env) ]
    payload.

Definition invalidMessage : Response :=
  from_ok
    (jsonResponse (JObj [ (js "error", JStr (js "Mensagem inválida")) ]) (Some 400) None)
    I.

(** [jsonResponse({ error, details }, geminiResponse.status)]: the status is
    the upstream's, and the call throws for one that cannot carry a body. *)
Definition upstreamError (upstreamStatus : Z) : result Response :=
  jsonResponse
    (JObj [ (js "error", JStr (js "Erro ao processar com IA"));
            (js "details",
             JStr (if upstreamStatus =? 429 then js "Rate limit da API"
                   else js "Erro interno")) ])
    (Some upstreamStatus) None.

(** The [try] block of the handler. *)
Definition tryBlock (request : Request) (env : Env)
    (upstream : UpstreamRequest → result UpstreamResponse)
    (origin : option js_string) : Eff Response :=
  body ← lift (request_json request);
  message ← lift (get_prop body (js "message"));
  if negb (truthy message) || negb (bool_decide (typeof message = js "string"))
  then
    lift (jsonResponse (JObj [ (js "error", JStr (js "Mensagem inválida")) ])
            (Some 400) None)
  else
    sanitizedMessage ← lift (call_substring message 0 1000);
    contents ← lift (get_prop body (js "contents"));
    geminiResponse ←
      global_fetch upstream (upstreamRequest env (geminiRequest contents sanitizedMessage));
    if negb (up_ok geminiResponse) then
      errorText ← lift (up_text geminiResponse);
      _ ← console_error (js "Gemini API Error:") (JStr errorText);
      lift (upstreamError (up_status geminiResponse))
    else
      geminiData ← lift (up_json geminiResponse);
      lift (jsonResponse geminiData (Some 200) (Some (header_value origin))).

(** What one invocation yields: the response, the cache it leaves behind
    and the events it produced. *)
Record Outcome := mkOutcome {
  response : Response;
  cache_after : gmap js_string RateRecord;
  events : list Event
}.

(** The responses with a status of the handler's own: each of these calls
    of [jsonResponse] returns. *)
Definition methodNotAllowed : Response :=
  from_ok
    (jsonResponse (JObj [ (js "error", JStr (js "Método não permitido")) ]) (Some 405) None)
    I.

Definition originNotAllowed : Response :=
  from_ok
    (jsonResponse (JObj [ (js "error", JStr (js "Origem não autorizada")) ]) (Some 403) None)
    I.

Definition rateLimited : Response :=
  from_ok
    (jsonResponse
       (JObj [ (js "error",
                JStr (js "Rate limit excedido. Tente novamente em alguns segundos.")) ])
       (Some 429) None)
    I.

Definition internalError (message : js_value) : Response :=
  from_ok
    (jsonResponse
       (JObj [ (js "error", JStr (js "Erro interno do servidor"));
               (js "message", message) ])
       (Some 500) None)
    I.

(** [fetch(request, env, ctx)].  [now] is the reading of [Date.now()] during
    the rate-limit check: the check runs synchronously and the Workers clock
    stands still between two I/O operations, so the reading in
    [checkRateLimit] and the one in [cleanupRateLimit] are the same.  The
    cache is read and written before the first [await] only, so the cache an
    invocation leaves behind does not depend on what other invocations do
    while it waits. *)
Definition fetch (request : Request) (env : Env) (now : Z)
    (upstream : UpstreamRequest → result UpstreamResponse)
    (cache : gmap js_string RateRecord) : Outcome :=
  if bool_decide (method request = js "OPTIONS") then
    mkOutcome handleCORS cache []
  else if negb (bool_decide (method request = js "POST")) then
    mkOutcome methodNotAllowed cache []
  else
    let origin := header_Origin request in
    if negb (array_includes ALLOWED_ORIGINS origin)
       && negb (optional_includes LOOPBACK_MARKER origin)
    then mkOutcome originNotAllowed cache []
    else
      let '(admitted, cache) := checkRateLimit now now (clientIP request) cache in
      if negb admitted then mkOutcome rateLimited cache []
      else
        match tryBlock request env upstream origin with
        | (Ok resp, evs) => mkOutcome resp cache evs
        | (Throw error, evs) =>
            mkOutcome (internalError error) cache
              (evs ++ [EvConsoleError (js "Proxy Error:") error])
        end.

(** The upstream requests issued during a run. *)
Definition upstream_calls (evs : list Event) : list UpstreamRequest :=
  omap (λ e, match e with EvFetch rq => Some rq | _ => None end) evs.

(** The [Access-Control-Allow-Origin] header of a response. *)
Definition allow_origin (r : Response) : option js_string :=
  header (js "Access-Control-Allow-Origin") (headers r).

(** Consecutive rate-limit checks for one client, at the given times. *)
Fixpoint checks (times : list Z) (ip : js_string)
    (cache : gmap js_string RateRecord) : list bool * gmap js_string RateRecord :=
  match times with
  | [] => ([], cache)
  | t :: rest =>
      let '(admitted, cache) := checkRateLimit t t ip cache in
      let '(flags, cache) := checks rest ip cache in
      (admitted :: flags, cache)
  end.

(** Consecutive invocations of the handler on one instance. *)
Fixpoint serve (invocations : list (Request * Z)) (env : Env)
    (upstream : UpstreamRequest → result UpstreamResponse)
    (cache : gmap js_string RateRecord) : list Response * gmap js_string RateRecord :=
  match invocations with
  | [] => ([], cache)
  | (request, now) :: rest =>
      let out := fetch request env now upstream cache in
      let '(responses, cache) := serve rest env upstream (cache_after out) in
      (response out :: responses, cache)
  end.

(** Sample inputs for the scenarios below. *)
Definition sample_env : Env := mkEnv (js "secret").

Definition sample_upstream (_ : UpstreamRequest) : result UpstreamResponse :=
  Ok (mkUpstreamResponse 200 (Ok (js "{}")) (Ok (JObj []))).


Definition sample_request (method origin : string) (body : js_value) : Request :=
  mkRequest (js method) (Some (js origin)) (Some (js "1.2.3.4")) (Ok body).

(** ** The browser side (assets/js/script.js)

    The escaping helpers at the top of the script and the part of
    [GeminiController] that talks to the worker. *)

(** One step of [str.replace(reg, match => map[match])]: the six characters
    of the pattern (ampersand, less-than, greater-than, double quote,
    apostrophe, slash) are replaced by their entry in [map], every other
    code unit is kept.  (The pattern ignores case, which adds nothing: no
    other code unit folds to one of the six.) *)
Definition html_escape (c : N) : js_string :=
  if (c =? 38)%N then js "&amp;"
  else if (c =? 60)%N then js "&lt;"
  else if (c =? 62)%N then js "&gt;"
  else if (c =? 34)%N then js "&quot;"
  else if (c =? 39)%N then js "&#x27;"
  else if (c =? 47)%N then js "&#x2F;"
  else [c].

(** [sanitizeHTML(str)]. *)
Definition sanitizeHTML (str : js_value) : js_string :=
  match str with
  | JStr s => flat_map html_escape s
  | _ => []
  end.

(** [sanitizeText(str)]: [sanitizeHTML], then every line feed becomes
    [<br>]. *)
Definition sanitizeText (str : js_value) : js_string :=
  match str with
  | JStr _ =>
      flat_map (λ c, if (c =? 10)%N then js "<br>" else [c]) (sanitizeHTML str)
  | _ => []
  end.

(** The characters [sanitizeHTML] replaces. *)
Definition html_special (c : N) : bool :=
  bool_decide (c ∈ [38; 60; 62; 34; 39; 47]%N).

(** An entry of [conversationHistory], and of the list given to
    [callGeminiAPI]. *)
Record ChatMessage := mkChatMessage { role : js_string; content : js_value }.

(** The fields of a [GeminiController] that its methods read or write. *)
Record GeminiController := mkGeminiController {
  apiKey : option js_string;
  apiUrl : js_string;
  useProxy : bool;
  conversationHistory : list ChatMessage;
  currentScenario : js_value;
  currentPhase : js_value
}.

(** [v[0]]. *)
Definition get_index0 (v : js_value) : result js_value :=
  match v with
  | JUndefined =>
      Throw (JStr (js "Cannot read properties of undefined (reading '0')"))
  | JNull =>
      Throw (JStr (js "Cannot read properties of null (reading '0')"))
  | JStr s => Ok (match s with c :: _ => JStr [c] | [] => JUndefined end)
  | JArr xs => Ok (match xs with x :: _ => x | [] => JUndefined end)
  | JObj props => Ok (own_property (js "0") props)
  | JBool _ | JNum _ => Ok JUndefined
  end.

(** An integer number in a template literal. *)
Definition js_of_Z (z : Z) : js_string := js (NilZero.string_of_int (Z.to_int z)).

(** [requestBody] of [callGeminiAPI]. *)
Definition requestBody (messages : list ChatMessage) : js_value :=
  JObj [ (js "contents",
          JArr (map (λ msg,
                  JObj [ (js "parts", JArr [ JObj [ (js "text", content msg) ] ]);
                         (js "role",
                          JStr (if bool_decide (role msg = js "assistant")
                                then js "model" else js "user")) ])
                  messages)) ].

(** [headers] of [callGeminiAPI]: the key is added in direct mode only. *)
Definition clientHeaders (this : GeminiController) : list (js_string * js_string) :=
  (js "Content-Type", js "application/json")
  :: match apiKey this with
     | Some key =>
         if negb (useProxy this) && truthy (JStr key)
         then [ (js "x-goog-api-key", key) ] else []
     | None => []
     end.

Definition clientRequest (this : GeminiController) (messages : list ChatMessage)
  : UpstreamRequest :=
  mkUpstreamRequest (apiUrl this) (js "POST") (clientHeaders this)
    (requestBody messages).

Definition invalidFormat : js_value :=
  JStr (js "Formato de resposta inválido da IA").

(** [callGeminiAPI(messages)]: the value returned or the error thrown, and
    the events.  [network] is what [fetch] gives for a request; the
    responses are read through [status], [ok] and [json()] only.  The
    [console.error] event of a refused call records the parsed error body
    (the status printed before it is left out). *)
Definition callGeminiAPI (this : GeminiController) (messages : list ChatMessage)
    (network : UpstreamRequest → result UpstreamResponse) : Eff js_value :=
  let attempt : Eff js_value :=
    response ← global_fetch network (clientRequest this messages);
    if negb (up_ok response) then
      let errorData :=
        match up_json response with Ok d => d | Throw _ => JObj [] end in
      _ ← console_error (js "API Error:") errorData;
      if up_status response =? 429 then
        lift (Throw (JStr (js "Limite de requisições atingido. Aguarde alguns segundos.")))
      else if up_status response =? 403 then
        lift (Throw (JStr (js "Acesso não autorizado. Verifique a configuração do proxy.")))
      else
        lift (Throw (JStr (js "Erro ao processar: " ++ js_of_Z (up_status response))))
    else
      data ← lift (up_json response);
      candidates ← lift (get_prop data (js "candidates"));
      if truthy candidates then
        first ← lift (get_index0 candidates);
        if truthy first then
          firstContent ← lift (get_prop first (js "content"));
          if truthy firstContent then
            parts ← lift (get_prop firstContent (js "parts"));
            part ← lift (get_index0 parts);
            lift (get_prop part (js "text"))
          else lift (Throw invalidFormat)
        else lift (Throw invalidFormat)
      else lift (Throw invalidFormat) in
  match attempt with
  | (Ok text, evs) => (Ok text, evs)
  | (Throw error, evs) =>
      (Throw error, evs ++ [EvConsoleError (js "Gemini API Call Error:") error])
  end.

(** What [JSON.parse] makes of [JSON.stringify(v)]: [None] when nothing is
    written.  A property whose value is [undefined] is dropped, an
    [undefined] array element and a number that is not finite become
    [null], and the sign of zero is lost. *)
Fixpoint json_wire (v : js_value) : option js_value :=
  match v with
  | JUndefined => None
  | JNull => Some JNull
  | JBool b => Some (JBool b)
  | JNum x =>
      Some (if PrimFloat.is_finite x
            then (if PrimFloat.is_zero x then JNum 0%float else JNum x)
            else JNull)
  | JStr s => Some (JStr s)
  | JArr xs =>
      Some (JArr (map (λ x, match json_wire x with Some w => w | None => JNull end) xs))
  | JObj props =>
      Some (JObj (omap (λ kv, match json_wire kv.2 with
                              | Some w => Some (kv.1, w)
                              | None => None
                              end) props))
  end.

(** The request the worker receives when the browser sends [rq] to it: the
    browser supplies [Origin], Cloudflare supplies [CF-Connecting-IP], and
    [request.json()] parses the text the browser wrote. *)
Definition proxy_request (origin ip : option js_string) (rq : UpstreamRequest)
  : Request :=
  mkRequest (up_method rq) origin ip
    (match json_wire (up_body rq) with
     | Some parsed => Ok parsed
     | None => Throw (JStr (js "Unexpected end of JSON input"))
     end).

(** [sendMessage(userMessage, scenario, phase, userBehavior)]: the outcome
    with its events, and the controller afterwards.  [systemPrompt] stands
    for the call [this.buildSystemPrompt(scenario, phase, userBehavior)],
    made before the [try]: the text it returns or the error it throws. *)
Definition sendMessage (this : GeminiController) (userMessage scenario phase : js_value)
    (systemPrompt : result js_value)
    (network : UpstreamRequest → result UpstreamResponse)
  : Eff js_value * GeminiController :=
  let this :=
    mkGeminiController (apiKey this) (apiUrl this) (useProxy this)
      (conversationHistory this) scenario phase in
  match systemPrompt with
  | Throw error => ((Throw error, []), this)
  | Ok prompt =>
      let messages :=
        mkChatMessage (js "user") prompt
        :: conversationHistory this ++ [ mkChatMessage (js "user") userMessage ] in
      match callGeminiAPI this messages network with
      | (Ok response, evs) =>
          ((Ok response, evs),
           mkGeminiController (apiKey this) (apiUrl this) (useProxy this)
             (conversationHistory this
              ++ [ mkChatMessage (js "user") userMessage;
                   mkChatMessage (js "assistant") response ])
             (currentScenario this) (currentPhase this))
      | (Throw error, evs) =>
          ((Throw error, evs ++ [ EvConsoleError (js "Gemini API Error:") error ]),
           this)
      end
  end.

(** * Properties *)

(** Splits a hypothesis [H : x ∈ [a; b; ...]] into one case per element, and
    proves membership in a list that is written out. *)
Ltac entity_cases H :=
  repeat (apply elem_of_cons in H as [H|H]); [..|by apply elem_of_nil in H].

Ltac in_list := apply list_elem_of_In; simpl; tauto.

(** Closes the two-part goal of a run that ended in a thrown error: it
    returned nothing, and the error is the last event. *)
Ltac thrown := split; [discriminate|intros ? [= <-]; reflexivity].

(** Splits a goal along what the upstream call and the reading of its
    answer can give. *)
Ltac upstream_paths upstream :=
  let resp := fresh "resp" in
  destruct (upstream _) as [resp|?];
  [destruct (up_ok resp);
   [destruct (up_json resp)
   |destruct (up_text resp); [destruct (upstreamError (up_status resp))|]]
  |].

(** Closes a goal whose hypothesis [H] puts an [EvFetch] in a list of events
    that has none. *)
Ltac no_fetch H :=
  simpl in H;
  repeat (apply elem_of_cons in H as [H|H]; [discriminate H|]);
  by apply elem_of_nil in H.

Example js_accent : js "inválida" = js "inv" ++ [225%N] ++ js "lida".
Proof. reflexivity. Qed.

Example check_fresh :
  checkRateLimit 1000 1000 (js "1.2.3.4") ∅
  = (true, {[ js "rate_1.2.3.4" := mkRate 1 61000 ]}).
Proof. vm_compute. reflexivity. Qed.

(** Scenario A: a first request from an allowed origin. *)
Example scenario_A :
  let out := fetch (sample_request "POST" "https://envolveai.bot"
                      (JObj [(js "message", JStr (js "Oi"))]))
               sample_env 1000 sample_upstream ∅ in
  status (response out) = 200
  ∧ allow_origin (response out) = Some (js "https://envolveai.bot")
  ∧ cache_after out !! js "rate_1.2.3.4" = Some (mkRate 1 61000)
  ∧ up_body <$> upstream_calls (events out) = [ geminiRequest JUndefined (js "Oi") ].
Proof. vm_compute. done. Qed.

(** Scenario B: the 31st request inside one window. *)
Example scenario_B :
  let request := sample_request "POST" "https://envolveai.bot"
                   (JObj [(js "message", JStr (js "Oi"))]) in
  let times := map Z.of_nat (seq 1000 31) in
  status <$> (serve (map (pair request) times) sample_env sample_upstream ∅).1
  = replicate 30 200 ++ [429].
Proof. vm_compute. done. Qed.

(** Scenario C: a foreign origin. *)
Example scenario_C :
  response (fetch (sample_request "POST" "https://evil.example" (JObj []))
              sample_env 1000 sample_upstream ∅)
  = originNotAllowed.
Proof. vm_compute. done. Qed.

(** Scenario D: the preflight. *)
Example scenario_D :
  response (fetch (mkRequest (js "OPTIONS") None None (Throw JUndefined))
              sample_env 0 sample_upstream ∅)
  = handleCORS.
Proof. reflexivity. Qed.

(** Scenario E: a numeric message. *)
Example scenario_E :
  response (fetch (sample_request "POST" "https://envolveai.bot"
                     (JObj [(js "message", JNum 12345%float)]))
              sample_env 1000 sample_upstream ∅)
  = invalidMessage.
Proof. vm_compute. done. Qed.

(** ** The rate limiter *)

Section RateLimiter.

Implicit Types (cache : gmap js_string RateRecord) (ip key : js_string)
  (rec : RateRecord) (now : Z).

Lemma rateKey_inj ip ip' : rateKey ip = rateKey ip' → ip = ip'.
Proof. unfold rateKey. apply app_inv_head. Qed.

Lemma js_incr_exact c : c < MAX_SAFE_SUCC → js_incr c = c + 1.
Proof. unfold js_incr. intros Hc. destruct (Z.ltb_spec c MAX_SAFE_SUCC); lia. Qed.

(** The sweep keeps exactly the entries that have not expired. *)
Lemma cleanup_lookup now cache key :
  cleanupRateLimit now cache !! key
  = match cache !! key with
    | Some rec => if resetAt rec <? now then None else Some rec
    | None => None
    end.
Proof.
  unfold cleanupRateLimit.
  destruct (cache !! key) as [rec|] eqn:Hk.
  - destruct (Z.ltb_spec (resetAt rec) now) as [Hlt|Hge].
    + apply map_lookup_filter_None. right. intros rec' Hk'. simpl.
      rewrite Hk in Hk'. injection Hk' as <-. tauto.
    + apply map_lookup_filter_Some. split; [done|]. simpl. lia.
  - apply map_lookup_filter_None. by left.
Qed.

Lemma cleanup_live now cache key rec :
  cleanupRateLimit now cache !! key = Some rec → now ≤ resetAt rec.
Proof.
  rewrite cleanup_lookup. destruct (cache !! key) as [r|]; [|done].
  destruct (Z.ltb_spec (resetAt r) now); [done|]. intros [= <-]. lia.
Qed.

(** [checkRateLimit] by cases on the record found before the call. *)
Lemma checkRateLimit_expired now ip cache :
  match cache !! rateKey ip with
  | Some rec => resetAt rec < now
  | None => True
  end →
  checkRateLimit now now ip cache
  = (true, <[rateKey ip := fresh now]> (cleanupRateLimit now cache)).
Proof.
  intros H. unfold checkRateLimit. cbv zeta. rewrite cleanup_lookup.
  destruct (cache !! rateKey ip) as [rec|]; [|done].
  destruct (Z.ltb_spec (resetAt rec) now); [done|lia].
Qed.

Lemma checkRateLimit_live now ip cache rec :
  cache !! rateKey ip = Some rec → now ≤ resetAt rec →
  checkRateLimit now now ip cache
  = (negb (RATE_LIMIT_REQUESTS <? js_incr (count rec)),
     <[rateKey ip := bumped rec]> (cleanupRateLimit now cache)).
Proof.
  intros Hk Hlive. unfold checkRateLimit. cbv zeta. rewrite cleanup_lookup, Hk.
  assert ((resetAt rec <? now) = false) as Hnot by (apply Z.ltb_ge; lia).
  rewrite !Hnot. simpl.
  by destruct (RATE_LIMIT_REQUESTS <? js_incr (count rec)).
Qed.

Lemma checkRateLimit_other now ip cache key :
  key ≠ rateKey ip →
  (checkRateLimit now now ip cache).2 !! key = cleanupRateLimit now cache !! key.
Proof.
  intros Hne. unfold checkRateLimit. cbv zeta.
  destruct (cleanupRateLimit now cache !! rateKey ip) as [rec|]; simpl.
  - destruct (resetAt rec <? now); simpl.
    + by rewrite lookup_insert_ne.
    + destruct (RATE_LIMIT_REQUESTS <? js_incr (count rec)); simpl;
        by rewrite lookup_insert_ne.
  - by rewrite lookup_insert_ne.
Qed.

(** Within a live window every check counts one more request and admits it
    as long as the budget is not exceeded. *)
Lemma checks_in_window (times : list Z) : ∀ ip cache rec,
  cache !! rateKey ip = Some rec →
  (∀ t, t ∈ times → t ≤ resetAt rec) →
  0 ≤ count rec →
  count rec + Z.of_nat (length times) ≤ RATE_LIMIT_REQUESTS →
  (checks times ip cache).1 = replicate (length times) true
  ∧ (checks times ip cache).2 !! rateKey ip
    = Some (mkRate (count rec + Z.of_nat (length times)) (resetAt rec)).
Proof.
  induction times as [|t rest IH]; intros ip cache rec Hk Hin Hpos Hbud; simpl.
  - split; [done|]. rewrite Hk. f_equal. destruct rec; simpl. f_equal. lia.
  - simpl in Hbud. unfold RATE_LIMIT_REQUESTS in *.
    rewrite (checkRateLimit_live t ip cache rec Hk) by (apply Hin; left).
    assert (js_incr (count rec) = count rec + 1) as Hinc
      by (apply js_incr_exact; unfold MAX_SAFE_SUCC; lia).
    destruct (IH ip (<[rateKey ip := bumped rec]> (cleanupRateLimit t cache))
                (bumped rec)) as [Hflags Hrec].
    + apply lookup_insert_eq.
    + intros t' Ht'. simpl. apply Hin. by right.
    + simpl. lia.
    + simpl. unfold RATE_LIMIT_REQUESTS. lia.
    + destruct (checks rest ip _) as [flags cache'] eqn:Hrun. simpl in *.
      split.
      * f_equal; [|done]. rewrite Hinc. unfold RATE_LIMIT_REQUESTS.
        destruct (Z.ltb_spec 30 (count rec + 1)); [lia|done].
      * rewrite Hrec, Hinc. do 2 f_equal. lia.
Qed.

(** A client without a live record that sends thirty requests inside one
    window has all thirty admitted and ends with [count = 30]. *)
Lemma thirty_admitted t0 (times : list Z) ip cache :
  match cache !! rateKey ip with
  | Some rec => resetAt rec < t0
  | None => True
  end →
  length times = 29%nat →
  (∀ t, t ∈ times → t ≤ t0 + RATE_LIMIT_WINDOW) →
  (checks (t0 :: times) ip cache).1 = replicate 30 true
  ∧ (checks (t0 :: times) ip cache).2 !! rateKey ip
    = Some (mkRate RATE_LIMIT_REQUESTS (t0 + RATE_LIMIT_WINDOW)).
Proof.
  intros Hstart Hlen Hin. simpl.
  rewrite (checkRateLimit_expired t0 ip cache Hstart).
  destruct (checks_in_window times ip
              (<[rateKey ip := fresh t0]> (cleanupRateLimit t0 cache)) (fresh t0))
    as [Hflags Hrec].
  - apply lookup_insert_eq.
  - done.
  - simpl. lia.
  - simpl. rewrite Hlen. unfold RATE_LIMIT_REQUESTS. lia.
  - destruct (checks times ip _) as [flags cache'] eqn:Hrun. simpl in *.
    rewrite Hflags, Hrec, Hlen. split; [done|]. done.
Qed.

End RateLimiter.

(** ** The handler, path by path *)

Section Handler.

Variables (request : Request) (env : Env) (now : Z)
  (upstream : UpstreamRequest → result UpstreamResponse)
  (cache : gmap js_string RateRecord).

Lemma fetch_options :
  method request = js "OPTIONS" →
  fetch request env now upstream cache = mkOutcome handleCORS cache [].
Proof. intros H. unfold fetch. by rewrite bool_decide_true. Qed.

Lemma fetch_other_method :
  method request ≠ js "OPTIONS" → method request ≠ js "POST" →
  fetch request env now upstream cache = mkOutcome methodNotAllowed cache [].
Proof.
  intros H1 H2. unfold fetch.
  rewrite (bool_decide_false _ H1), (bool_decide_false _ H2). done.
Qed.

Lemma fetch_post :
  method request = js "POST" →
  fetch request env now upstream cache
  = if origin_passes (header_Origin request) then
      let '(admitted, cache') := checkRateLimit now now (clientIP request) cache in
      if admitted then
        match tryBlock request env upstream (header_Origin request) with
        | (Ok resp, evs) => mkOutcome resp cache' evs
        | (Throw error, evs) =>
            mkOutcome (internalError error) cache'
              (evs ++ [EvConsoleError (js "Proxy Error:") error])
        end
      else mkOutcome rateLimited cache' []
    else mkOutcome originNotAllowed cache [].
Proof.
  intros H. unfold fetch, origin_passes. rewrite H.
  change (bool_decide (js "POST" = js "OPTIONS")) with false.
  change (bool_decide (js "POST" = js "POST")) with true. cbv iota. simpl negb.
  cbv iota.
  destruct (array_includes _ _), (optional_includes _ _); simpl; try done;
    destruct (checkRateLimit _ _ _ _) as [[] ?]; done.
Qed.

(** A call of [jsonResponse] that returns gives the response with the
    status, headers and body it was asked for. *)
Lemma jsonResponse_ok data st origin resp :
  jsonResponse data st origin = Ok resp →
  resp = mkResponse (default_arg 200 st) (jsonHeaders (default_arg (js "*") origin))
           (Some data)
  ∧ 200 ≤ default_arg 200 st ≤ 599
  ∧ null_body_status (default_arg 200 st) = false.
Proof.
  unfold jsonResponse, newResponse.
  destruct (Z.ltb_spec (default_arg 200 st) 200); [discriminate|].
  destruct (Z.ltb_spec 599 (default_arg 200 st)); [discriminate|]. simpl.
  try rewrite bool_decide_true by (by eexists). simpl.
  destruct (null_body_status _); [discriminate|].
  intros [= <-]. repeat split; lia.
Qed.


(** The responses the [try] block can return. *)
Lemma tryBlock_cases origin :
  match tryBlock request env upstream origin with
  | (Ok resp, _) =>
      resp = invalidMessage
      ∨ (∃ s, ¬ (200 ≤ s ≤ 299) ∧ upstreamError s = Ok resp)
      ∨ (∃ data, jsonResponse data (Some 200) (Some (header_value origin)) = Ok resp)
  | (Throw _, _) => True
  end.
Proof.
  unfold tryBlock. destruct (request_json request) as [body|e]; [|done].
  simpl. destruct (get_prop body (js "message")) as [message|e]; [|done].
  simpl. destruct (negb (truthy message) || _); simpl; [by left|].
  destruct (call_substring message 0 1000) as [sanitized|e]; [|done].
  simpl. destruct (get_prop body (js "contents")) as [contents|e]; [|done].
  simpl. destruct (upstream _) as [resp|e]; [|done].
  simpl. destruct (up_ok resp) eqn:Hok; simpl.
  - destruct (up_json resp) as [data|e]; [|done]. simpl. right. right. by eexists.
  - destruct (up_text resp) as [text|e]; [|done]. simpl.
    destruct (upstreamError (up_status resp)) as [built|e] eqn:Hbuilt; [|done].
    right. left. exists (up_status resp). split; [|done]. unfold up_ok in Hok. lia.
Qed.

End Handler.

(** ** Fixed-window rate limiting *)

Lemma try_response_not_rateLimited request env upstream origin resp evs :
  tryBlock request env upstream origin = (Ok resp, evs) → resp ≠ rateLimited.
Proof.
  intros Htry Heq. pose proof (tryBlock_cases request env upstream origin) as Hc.
  rewrite Htry in Hc. subst resp.
  destruct Hc as [Hc | [(s & _ & Hc) | (data & Hc)]].
  - discriminate Hc.
  - apply jsonResponse_ok in Hc as [Hc _]. apply (f_equal body) in Hc.
    vm_compute in Hc. discriminate Hc.
  - apply jsonResponse_ok in Hc as [Hc _]. discriminate Hc.
Qed.

(** C1.  A client whose record shows the full budget of 30 admitted requests:
    a POST from an accepted origin that arrives no later than [resetAt] is
    answered with the 429 rate-limit response, and one that arrives after
    [resetAt] passes the limiter and leaves the fresh record
    [count = 1], [resetAt = now + 60000]. *)
Theorem C1_fixed_window request env now upstream cache rec :
  method request = js "POST" →
  origin_passes (header_Origin request) = true →
  cache !! rateKey (clientIP request) = Some rec →
  count rec = RATE_LIMIT_REQUESTS →
  let out := fetch request env now upstream cache in
  (now ≤ resetAt rec →
     (checkRateLimit now now (clientIP request) cache).1 = false
     ∧ response out = rateLimited
     ∧ status (response out) = 429
     ∧ events out = [])
  ∧ (resetAt rec < now →
     (checkRateLimit now now (clientIP request) cache).1 = true
     ∧ response out ≠ rateLimited
     ∧ cache_after out !! rateKey (clientIP request)
       = Some (mkRate 1 (now + 60000))).
Proof.
  intros Hpost Hpass Hk Hcount out. subst out.
  rewrite (fetch_post _ _ _ _ _ Hpost), Hpass. split.
  - intros Hlive. rewrite (checkRateLimit_live _ _ _ _ Hk Hlive), Hcount. done.
  - intros Hexp.
    rewrite (checkRateLimit_expired now (clientIP request) cache)
      by (by rewrite Hk).
    split; [done|].
    destruct (tryBlock _ _ _ _) as [[resp|e] evs] eqn:Htry; simpl.
    + split; [by eapply try_response_not_rateLimited|]. apply lookup_insert_eq.
    + split; [|apply lookup_insert_eq].
      intros Heq. apply (f_equal status) in Heq. vm_compute in Heq. discriminate.
Qed.

(** C7.  A request inside a live window leaves the client's record with the
    incremented count and the same [resetAt], also when it is rejected
    because the incremented count exceeds the budget; the record is replaced
    by a fresh one only once [resetAt] has passed. *)
Theorem C7_rejection_keeps_window now ip cache rec :
  cache !! rateKey ip = Some rec →
  let after := checkRateLimit now now ip cache in
  (now ≤ resetAt rec →
     after.2 !! rateKey ip = Some (mkRate (js_incr (count rec)) (resetAt rec))
     ∧ (after.1 = false ↔ RATE_LIMIT_REQUESTS < js_incr (count rec))
     ∧ (count rec < MAX_SAFE_SUCC → js_incr (count rec) = count rec + 1))
  ∧ (resetAt rec < now →
     after.1 = true
     ∧ after.2 !! rateKey ip = Some (mkRate 1 (now + RATE_LIMIT_WINDOW))).
Proof.
  intros Hk after. subst after. split.
  - intros Hlive. rewrite (checkRateLimit_live _ _ _ _ Hk Hlive). simpl.
    split; [apply lookup_insert_eq|]. split; [|apply js_incr_exact].
    destruct (Z.ltb_spec RATE_LIMIT_REQUESTS (js_incr (count rec))); simpl;
      split; intros; try done; lia.
  - intros Hexp.
    rewrite (checkRateLimit_expired now ip cache) by (by rewrite Hk).
    split; [done|]. apply lookup_insert_eq.
Qed.

(** C8.  After a rate-limit check at time [now]: records that had expired
    are gone (the client's own expired record is not seen by the lookup and
    is replaced by a fresh one), every record left satisfies
    [resetAt >= now], the records of other keys that have not expired are
    unchanged, and the decision depends on the client's own record only. *)
Theorem C8_lazy_sweep now ip cache :
  let after := (checkRateLimit now now ip cache).2 in
  (∀ key rec, cache !! key = Some rec → resetAt rec < now →
     if bool_decide (key = rateKey ip) then after !! key = Some (fresh now)
     else after !! key = None)
  ∧ (∀ key rec, after !! key = Some rec → now ≤ resetAt rec)
  ∧ (∀ key rec, key ≠ rateKey ip → cache !! key = Some rec →
       now ≤ resetAt rec → after !! key = Some rec)
  ∧ (∀ ip', ip' ≠ ip → after !! rateKey ip' = cleanupRateLimit now cache !! rateKey ip')
  ∧ (∀ cache', cache' !! rateKey ip = cache !! rateKey ip →
       (checkRateLimit now now ip cache').1 = (checkRateLimit now now ip cache).1).
Proof.
  intros after. subst after. repeat split.
  - intros key rec Hk Hexp. case_bool_decide as Hkey.
    + subst key.
      rewrite (checkRateLimit_expired now ip cache) by (by rewrite Hk).
      apply lookup_insert_eq.
    + rewrite checkRateLimit_other by done. rewrite cleanup_lookup, Hk.
      destruct (Z.ltb_spec (resetAt rec) now); [done|lia].
  - intros key rec. destruct (decide (key = rateKey ip)) as [->|Hne].
    + unfold checkRateLimit. cbv zeta.
      destruct (cleanupRateLimit now cache !! rateKey ip) as [old|] eqn:Hold.
      * apply cleanup_live in Hold.
        destruct (resetAt old <? now); simpl;
          [|destruct (RATE_LIMIT_REQUESTS <? js_incr (count old)); simpl];
          rewrite lookup_insert_eq; intros [= <-]; simpl;
          unfold RATE_LIMIT_WINDOW; lia.
      * simpl. rewrite lookup_insert_eq. intros [= <-]. simpl.
        unfold RATE_LIMIT_WINDOW. lia.
    + rewrite checkRateLimit_other by done. apply cleanup_live.
  - intros key rec Hne Hk Hlive. rewrite checkRateLimit_other by done.
    rewrite cleanup_lookup, Hk. destruct (Z.ltb_spec (resetAt rec) now); [lia|done].
  - intros ip' Hne. apply checkRateLimit_other. intros Heq.
    by apply rateKey_inj in Heq.
  - intros cache' Hsame. unfold checkRateLimit. cbv zeta.
    rewrite !cleanup_lookup, Hsame.
    destruct (cache !! rateKey ip) as [rec|]; [|done].
    destruct (resetAt rec <? now) eqn:Hexp; [done|]. rewrite Hexp.
    by destruct (RATE_LIMIT_REQUESTS <? count (bumped rec)).
Qed.

(** ** Method and origin gates *)

Lemma allow_origin_jsonResponse data st origin resp :
  jsonResponse data st origin = Ok resp →
  allow_origin resp = Some (default_arg (js "*") origin).
Proof. intros [-> _]%jsonResponse_ok. reflexivity. Qed.

Lemma origin_passes_some origin :
  origin_passes origin = true →
  ∃ o, origin = Some o
       ∧ (o ∈ ALLOWED_ORIGINS ∨ includes LOOPBACK_MARKER o = true)
       ∧ o ≠ js "*".
Proof.
  destruct origin as [o|]; [|done]. intros Hp. exists o. split; [done|]. split.
  - unfold origin_passes in Hp. apply orb_true_iff in Hp as [Hp|Hp]; [left|by right].
    simpl in Hp. by apply bool_decide_eq_true in Hp.
  - intros ->. vm_compute in Hp. discriminate.
Qed.

(** C3, as the code has it.  The method is looked at first: OPTIONS gets the
    preflight response and any method other than POST and OPTIONS gets 405,
    whatever the [Origin] is; a POST whose [Origin] is neither on the
    allow-list nor contains the loopback marker gets 403. *)
Theorem C3_origin_gate_by_method request env now upstream cache :
  let out := fetch request env now upstream cache in
  (method request = js "POST" →
   array_includes ALLOWED_ORIGINS (header_Origin request) = false →
   optional_includes LOOPBACK_MARKER (header_Origin request) = false →
     response out = originNotAllowed ∧ status (response out) = 403
     ∧ cache_after out = cache ∧ events out = [])
  ∧ (method request = js "OPTIONS" →
     response out = handleCORS ∧ status (response out) = 204)
  ∧ (method request ≠ js "POST" → method request ≠ js "OPTIONS" →
     response out = methodNotAllowed ∧ status (response out) = 405).
Proof.
  intros out. subst out. split; [|split].
  - intros Hpost Hlist Hloop. rewrite (fetch_post _ _ _ _ _ Hpost).
    unfold origin_passes. rewrite Hlist, Hloop. done.
  - intros Hopt. by rewrite (fetch_options _ _ _ _ _ Hopt).
  - intros Hnp Hno. by rewrite (fetch_other_method _ _ _ _ _ Hno Hnp).
Qed.

(** C9.  A POST without an [Origin] header is answered with 403; the rate
    limiter is not consulted and nothing is sent upstream. *)
Theorem C9_missing_origin_rejected request env now upstream cache :
  method request = js "POST" →
  header_Origin request = None →
  let out := fetch request env now upstream cache in
  response out = originNotAllowed
  ∧ status (response out) = 403
  ∧ cache_after out = cache
  ∧ events out = [].
Proof.
  intros Hpost Hnone out. subst out.
  rewrite (fetch_post _ _ _ _ _ Hpost), Hnone. done.
Qed.

(** ** CORS header *)

(** Where the [Access-Control-Allow-Origin] header comes from: the success
    response is the only one built with the request's origin, every other
    response is built with the default of [jsonResponse]. *)
Lemma allow_origin_cases request env now upstream cache :
  method request ≠ js "OPTIONS" →
  let r := response (fetch request env now upstream cache) in
  (status r = 200 →
     ∃ o, header_Origin request = Some o
          ∧ origin_passes (Some o) = true
          ∧ allow_origin r = Some o
          ∧ o ≠ js "*")
  ∧ (status r ≠ 200 → allow_origin r = Some (js "*")).
Proof.
  intros Hno r. subst r.
  destruct (decide (method request = js "POST")) as [Hpost|Hnp];
    [|rewrite (fetch_other_method _ _ _ _ _ Hno Hnp); split; [discriminate|done]].
  rewrite (fetch_post _ _ _ _ _ Hpost).
  destruct (origin_passes (header_Origin request)) eqn:Hpass;
    [|split; [discriminate|done]].
  destruct (checkRateLimit _ _ _ _) as [[] cache']; [|split; [discriminate|done]].
  pose proof (tryBlock_cases request env upstream (header_Origin request)) as Hc.
  destruct (tryBlock _ _ _ _) as [[resp|e] evs]; [|split; [discriminate|done]].
  simpl. destruct Hc as [-> | [(s & Hs & Hc) | (data & Hc)]].
  - split; [discriminate|done].
  - apply jsonResponse_ok in Hc as [-> _]. split; [|done]. simpl. lia.
  - apply jsonResponse_ok in Hc as [-> _]. split; [|done]. intros _.
    destruct (origin_passes_some _ Hpass) as (o & Ho & _ & Hstar).
    exists o. rewrite Ho in *. done.
Qed.

(** C2, as the code has it.  For a request other than OPTIONS, the success
    response (status 200) carries [Access-Control-Allow-Origin] equal to the
    request's [Origin], which passed the origin check and is not the
    wildcard; the 405 and 403 rejections, issued before any origin has
    passed the check, carry the wildcard. *)
Theorem C2_allow_origin_by_status request env now upstream cache :
  method request ≠ js "OPTIONS" →
  let r := response (fetch request env now upstream cache) in
  (status r = 200 →
     ∃ o, header_Origin request = Some o
          ∧ origin_passes (Some o) = true
          ∧ allow_origin r = Some o
          ∧ o ≠ js "*")
  ∧ (method request ≠ js "POST" →
     status r = 405 ∧ allow_origin r = Some (js "*"))
  ∧ (method request = js "POST" → origin_passes (header_Origin request) = false →
     status r = 403 ∧ allow_origin r = Some (js "*")).
Proof.
  intros Hno r. split; [|split].
  - apply (allow_origin_cases request env now upstream cache Hno).
  - intros Hnp. subst r. by rewrite (fetch_other_method _ _ _ _ _ Hno Hnp).
  - intros Hpost Hfail. subst r. by rewrite (fetch_post _ _ _ _ _ Hpost), Hfail.
Qed.

(** ** Validation, truncation and the upstream call *)

(** The [try] block unfolded along its paths. *)
Lemma tryBlock_paths request env upstream origin :
  tryBlock request env upstream origin
  = match request_json request with
    | Throw e => (Throw e, [])
    | Ok body =>
      match get_prop body (js "message") with
      | Throw e => (Throw e, [])
      | Ok (JStr (c :: m)) =>
        match get_prop body (js "contents") with
        | Throw e => (Throw e, [])
        | Ok contents =>
          let rq := upstreamRequest env
                      (geminiRequest contents (substring 0 1000 (c :: m))) in
          match upstream rq with
          | Throw e => (Throw e, [EvFetch rq])
          | Ok geminiResponse =>
            if up_ok geminiResponse then
              match up_json geminiResponse with
              | Throw e => (Throw e, [EvFetch rq])
              | Ok geminiData =>
                  (jsonResponse geminiData (Some 200) (Some (header_value origin)),
                   [EvFetch rq])
              end
            else
              match up_text geminiResponse with
              | Throw e => (Throw e, [EvFetch rq])
              | Ok errorText =>
                  (upstreamError (up_status geminiResponse),
                   [EvFetch rq; EvConsoleError (js "Gemini API Error:") (JStr errorText)])
              end
          end
        end
      | Ok _ => (Ok invalidMessage, [])
      end
    end.
Proof.
  unfold tryBlock. destruct (request_json request) as [body|e]; [|done].
  simpl. destruct (get_prop body (js "message")) as [message|e]; [|done].
  simpl. destruct message as [| |b|x|[|c m]|xs|props]; try reflexivity;
    try (destruct (truthy _); reflexivity).
  change (negb (truthy (JStr (c :: m))) || _) with false. cbv iota. simpl.
  destruct (get_prop body (js "contents")) as [contents|e]; [|done].
  simpl. destruct (upstream _) as [resp|e]; [|done].
  simpl. destruct (up_ok resp); simpl.
  - by destruct (up_json resp).
  - destruct (up_text resp); [|done]. simpl.
    by destruct (upstreamError (up_status resp)).
Qed.

Lemma fetch_admitted request env now upstream cache :
  method request = js "POST" →
  origin_passes (header_Origin request) = true →
  (checkRateLimit now now (clientIP request) cache).1 = true →
  fetch request env now upstream cache
  = let cache' := (checkRateLimit now now (clientIP request) cache).2 in
    match tryBlock request env upstream (header_Origin request) with
    | (Ok resp, evs) => mkOutcome resp cache' evs
    | (Throw error, evs) =>
        mkOutcome (internalError error) cache'
          (evs ++ [EvConsoleError (js "Proxy Error:") error])
    end.
Proof.
  intros Hpost Hpass Hadm. rewrite (fetch_post _ _ _ _ _ Hpost), Hpass.
  destruct (checkRateLimit _ _ _ _) as [adm cache']. simpl in Hadm. by subst adm.
Qed.

(** X28.  An admitted POST whose parsed body lets [message] be read (any
    body but [null]) and has no [message], or one that is not a string, is
    answered with 400 and the error "Mensagem inválida"; nothing is sent
    upstream. *)
Theorem invalid_message_rejected request env now upstream cache parsed message :
  method request = js "POST" →
  origin_passes (header_Origin request) = true →
  (checkRateLimit now now (clientIP request) cache).1 = true →
  request_json request = Ok parsed →
  get_prop parsed (js "message") = Ok message →
  (∀ s, message ≠ JStr s) →
  let out := fetch request env now upstream cache in
  status (response out) = 400
  ∧ body (response out)
    = Some (JObj [ (js "error", JStr (js "Mensagem inválida")) ])
  ∧ upstream_calls (events out) = []
  ∧ events out = [].
Proof.
  intros Hpost Hpass Hadm Hjson Hmsg Hnot out. subst out.
  rewrite (fetch_admitted _ _ _ _ _ Hpost Hpass Hadm), tryBlock_paths, Hjson, Hmsg.
  destruct message as [| |b|x|s|xs|props]; try done. by destruct (Hnot s).
Qed.

(** C5, where the code departs from it.  An admitted POST whose body is the
    JSON literal [null] lacks a [message] like any other body without one,
    but reading the property throws before the validation is reached: the
    answer is 500 with the TypeError's message, not 400.  Nothing is sent
    upstream. *)
Theorem C5_null_body_answered_500 request env now upstream cache :
  method request = js "POST" →
  origin_passes (header_Origin request) = true →
  (checkRateLimit now now (clientIP request) cache).1 = true →
  request_json request = Ok JNull →
  let out := fetch request env now upstream cache in
  status (response out) = 500
  ∧ status (response out) ≠ 400
  ∧ body (response out)
    = Some (JObj [ (js "error", JStr (js "Erro interno do servidor"));
                   (js "message",
                    JStr (js "Cannot read properties of null (reading 'message')")) ])
  ∧ upstream_calls (events out) = [].
Proof.
  intros Hpost Hpass Hadm Hjson out. subst out.
  rewrite (fetch_admitted _ _ _ _ _ Hpost Hpass Hadm), tryBlock_paths, Hjson.
  repeat split. discriminate.
Qed.

(** C10.  An admitted POST whose [message] is the empty string is answered
    with 400 although the property is present and a string. *)
Theorem C10_empty_message_rejected request env now upstream cache props :
  method request = js "POST" →
  origin_passes (header_Origin request) = true →
  (checkRateLimit now now (clientIP request) cache).1 = true →
  request_json request = Ok (JObj props) →
  own_property (js "message") props = JStr [] →
  let out := fetch request env now upstream cache in
  typeof (own_property (js "message") props) = js "string"
  ∧ response out = invalidMessage
  ∧ status (response out) = 400
  ∧ events out = [].
Proof.
  intros Hpost Hpass Hadm Hjson Hmsg out. subst out.
  rewrite (fetch_admitted _ _ _ _ _ Hpost Hpass Hadm), tryBlock_paths, Hjson.
  simpl. rewrite Hmsg. done.
Qed.



(** Whatever is sent upstream comes from an admitted POST with a non-empty
    string [message], and carries that message cut by [substring(0, 1000)]. *)
Lemma upstream_call_inv request env now upstream cache rq :
  EvFetch rq ∈ events (fetch request env now upstream cache) →
  method request = js "POST"
  ∧ origin_passes (header_Origin request) = true
  ∧ (checkRateLimit now now (clientIP request) cache).1 = true
  ∧ ∃ body c m contents,
      request_json request = Ok body
      ∧ get_prop body (js "message") = Ok (JStr (c :: m))
      ∧ get_prop body (js "contents") = Ok contents
      ∧ rq = upstreamRequest env (geminiRequest contents (substring 0 1000 (c :: m))).
Proof.
  intros Hin.
  destruct (decide (method request = js "OPTIONS")) as [Ho|Ho];
    [rewrite fetch_options in Hin by done; no_fetch Hin|].
  destruct (decide (method request = js "POST")) as [Hp|Hp];
    [|rewrite fetch_other_method in Hin by done; no_fetch Hin].
  rewrite fetch_post in Hin by done.
  destruct (origin_passes _) eqn:Hpass; [|no_fetch Hin].
  destruct (checkRateLimit _ _ _ _) as [[] cache'] eqn:Hchk; [|no_fetch Hin].
  do 3 (split; [done|]).
  rewrite tryBlock_paths in Hin.
  destruct (request_json request) as [body|e] eqn:Hjson; [|no_fetch Hin].
  destruct (get_prop body (js "message")) as [message|e] eqn:Hmsg; [|no_fetch Hin].
  destruct message as [| |b|x|[|c m]|xs|props]; try no_fetch Hin.
  destruct (get_prop body (js "contents")) as [contents|e] eqn:Hc; [|no_fetch Hin].
  exists body, c, m, contents. do 3 (split; [done|]).
  cbv zeta in Hin.
  upstream_paths upstream;
    simpl in Hin; apply elem_of_cons in Hin as [[= ->]|Hin]; try done;
    no_fetch Hin.
Qed.





(** A body that is the JSON literal [null] has no properties to read: the
    read throws and the catch-all answers 500. *)
Lemma null_body_internal_error request env now upstream cache :
  method request = js "POST" →
  origin_passes (header_Origin request) = true →
  (checkRateLimit now now (clientIP request) cache).1 = true →
  request_json request = Ok JNull →
  status (response (fetch request env now upstream cache)) = 500.
Proof.
  intros Hpost Hpass Hadm Hjson.
  by rewrite (fetch_admitted _ _ _ _ _ Hpost Hpass Hadm), tryBlock_paths, Hjson.
Qed.

(** ** The string tests of the origin check *)

Lemma starts_with_spec needle : ∀ hay,
  starts_with needle hay = true ↔ ∃ suffix, hay = needle ++ suffix.
Proof.
  induction needle as [|a needle IH]; intros hay; simpl.
  - split; [intros _; by exists hay|done].
  - destruct hay as [|b hay].
    + split; [done|]. by intros [suffix Heq].
    + rewrite andb_true_iff, N.eqb_eq, IH. split.
      * intros [-> [suffix ->]]. by exists suffix.
      * intros [suffix [= -> ->]]. split; [done|]. by exists suffix.
Qed.

Lemma includes_spec needle hay :
  includes needle hay = true ↔ ∃ prefix suffix, hay = prefix ++ needle ++ suffix.
Proof.
  induction hay as [|b hay IH]; simpl; rewrite orb_true_iff, starts_with_spec.
  - split.
    + intros [[suffix Heq]|?]; [|done]. by exists [], suffix.
    + intros (prefix & suffix & Heq). left.
      destruct prefix; [by exists suffix|done].
  - rewrite IH. split.
    + intros [[suffix Heq]|(prefix & suffix & ->)].
      * by exists [], suffix.
      * by exists (b :: prefix), suffix.
    + intros (prefix & suffix & Heq). destruct prefix as [|b' prefix].
      * left. by exists suffix.
      * right. injection Heq as -> ->. by exists prefix, suffix.
Qed.

(** The origin check passes exactly for an [Origin] header that is on the
    allow-list or has the loopback marker somewhere inside. *)
Lemma origin_passes_spec origin :
  origin_passes origin = true
  ↔ ∃ o, origin = Some o
         ∧ (o ∈ ALLOWED_ORIGINS
            ∨ ∃ prefix suffix, o = prefix ++ LOOPBACK_MARKER ++ suffix).
Proof.
  destruct origin as [o|]; [|split; [done|by intros (o & Ho & _)]].
  unfold origin_passes. simpl.
  rewrite orb_true_iff, bool_decide_eq_true, includes_spec. split.
  - intros H. by exists o.
  - by intros (o' & [= <-] & H).
Qed.

(** ** Two clock readings

    [checkRateLimit] with the sweep reading its own, later clock value: what
    is left in the cache has still not expired at the time of the check. *)
Lemma sweep_bound_two_readings now sweepNow ip cache key rec :
  now ≤ sweepNow →
  (checkRateLimit now sweepNow ip cache).2 !! key = Some rec →
  now ≤ resetAt rec.
Proof.
  intros Hclock. unfold checkRateLimit. cbv zeta.
  assert (∀ r, <[rateKey ip := r]> (cleanupRateLimit sweepNow cache) !! key = Some rec →
               now ≤ resetAt r → now ≤ resetAt rec) as Hins.
  { intros r. destruct (decide (key = rateKey ip)) as [->|Hne].
    - rewrite lookup_insert_eq. by intros [= ->].
    - rewrite lookup_insert_ne by done. intros Hk _.
      apply cleanup_live in Hk. lia. }
  destruct (cleanupRateLimit sweepNow cache !! rateKey ip) as [old|] eqn:Hold.
  - apply cleanup_live in Hold.
    destruct (resetAt old <? now); simpl;
      [|destruct (RATE_LIMIT_REQUESTS <? js_incr (count old)); simpl];
      intros Hk; apply (Hins _ Hk); simpl; unfold RATE_LIMIT_WINDOW; lia.
  - simpl. intros Hk. apply (Hins _ Hk). simpl. unfold RATE_LIMIT_WINDOW. lia.
Qed.

(** ** Where the code departs from the wording *)

(** C2 as worded fails on error responses.  A POST from a foreign origin is
    answered 403 with the wildcard; a POST from an allow-listed origin with
    a body without [message] is answered 400 with the wildcard, not with the
    request's origin. *)
Lemma C2_counterexample :
  let foreign := sample_request "POST" "https://evil.example" (JObj []) in
  let listed := sample_request "POST" "https://envolveai.bot" (JObj []) in
  let out403 := fetch foreign sample_env 1000 sample_upstream ∅ in
  let out400 := fetch listed sample_env 1000 sample_upstream ∅ in
  (method foreign ≠ js "OPTIONS"
   ∧ status (response out403) = 403
   ∧ allow_origin (response out403) = Some (js "*"))
  ∧ (method listed ≠ js "OPTIONS"
     ∧ origin_passes (header_Origin listed) = true
     ∧ status (response out400) = 400
     ∧ allow_origin (response out400) = Some (js "*")
     ∧ allow_origin (response out400) ≠ header_Origin listed).
Proof. vm_compute. repeat split; discriminate. Qed.

(** C3 as worded fails: a GET from a foreign origin is answered 405, not
    403. *)
Lemma C3_counterexample :
  let request := sample_request "GET" "https://evil.example" (JObj []) in
  let out := fetch request sample_env 1000 sample_upstream ∅ in
  method request ≠ js "OPTIONS"
  ∧ array_includes ALLOWED_ORIGINS (header_Origin request) = false
  ∧ optional_includes LOOPBACK_MARKER (header_Origin request) = false
  ∧ status (response out) = 405
  ∧ status (response out) ≠ 403.
Proof. vm_compute. repeat split; discriminate. Qed.


(** ** Instances *)

Lemma C1_fixed_window_witness :
  let request := sample_request "POST" "https://envolveai.bot"
                   (JObj [(js "message", JStr (js "Oi"))]) in
  let cache : gmap js_string RateRecord := {[ js "rate_1.2.3.4" := mkRate 30 61000 ]} in
  (method request = js "POST"
   ∧ origin_passes (header_Origin request) = true
   ∧ cache !! rateKey (clientIP request) = Some (mkRate 30 61000)
   ∧ count (mkRate 30 61000) = RATE_LIMIT_REQUESTS)
  ∧ status (response (fetch request sample_env 61000 sample_upstream cache)) = 429
  ∧ cache_after (fetch request sample_env 61001 sample_upstream cache)
    !! rateKey (clientIP request) = Some (mkRate 1 121001).
Proof.
  intros request cache.
  assert (method request = js "POST") as H1 by (vm_compute; reflexivity).
  assert (origin_passes (header_Origin request) = true) as H2
    by (vm_compute; reflexivity).
  assert (cache !! rateKey (clientIP request) = Some (mkRate 30 61000)) as H3
    by (vm_compute; reflexivity).
  assert (count (mkRate 30 61000) = RATE_LIMIT_REQUESTS) as H4 by reflexivity.
  split; [done|]. split.
  - apply (C1_fixed_window request sample_env 61000 sample_upstream cache _ H1 H2 H3 H4).
    simpl. lia.
  - apply (C1_fixed_window request sample_env 61001 sample_upstream cache _ H1 H2 H3 H4).
    simpl. lia.
Defined.

Lemma C7_rejection_keeps_window_witness :
  let cache : gmap js_string RateRecord := {[ js "rate_1.2.3.4" := mkRate 30 61000 ]} in
  let after := checkRateLimit 2000 2000 (js "1.2.3.4") cache in
  cache !! rateKey (js "1.2.3.4") = Some (mkRate 30 61000)
  ∧ after.1 = false
  ∧ after.2 !! rateKey (js "1.2.3.4") = Some (mkRate 31 61000).
Proof.
  intros cache after.
  assert (cache !! rateKey (js "1.2.3.4") = Some (mkRate 30 61000)) as H1
    by (vm_compute; reflexivity).
  split; [done|].
  destruct (C7_rejection_keeps_window 2000 (js "1.2.3.4") cache _ H1) as [Hlive _].
  destruct Hlive as (Hrec & Hrej & _); [simpl; lia|].
  split; [|exact Hrec]. apply Hrej. vm_compute. reflexivity.
Defined.

Lemma C3_origin_gate_by_method_witness :
  let request := sample_request "POST" "https://evil.example" (JObj []) in
  (method request = js "POST"
   ∧ array_includes ALLOWED_ORIGINS (header_Origin request) = false
   ∧ optional_includes LOOPBACK_MARKER (header_Origin request) = false)
  ∧ status (response (fetch request sample_env 1000 sample_upstream ∅)) = 403.
Proof.
  intros request.
  assert (method request = js "POST") as H0 by (vm_compute; reflexivity).
  assert (array_includes ALLOWED_ORIGINS (header_Origin request) = false) as H1
    by (vm_compute; reflexivity).
  assert (optional_includes LOOPBACK_MARKER (header_Origin request) = false) as H2
    by (vm_compute; reflexivity).
  split; [done|].
  destruct (C3_origin_gate_by_method request sample_env 1000 sample_upstream ∅)
    as [Hpost _].
  apply (Hpost H0 H1 H2).
Defined.

Lemma C9_missing_origin_rejected_witness :
  let request := mkRequest (js "POST") None (Some (js "1.2.3.4"))
                   (Ok (JObj [(js "message", JStr (js "Oi"))])) in
  (method request = js "POST" ∧ header_Origin request = None)
  ∧ status (response (fetch request sample_env 1000 sample_upstream ∅)) = 403.
Proof.
  intros request.
  assert (method request = js "POST") as H1 by (vm_compute; reflexivity).
  assert (header_Origin request = None) as H2 by reflexivity.
  split; [done|].
  apply (C9_missing_origin_rejected request sample_env 1000 sample_upstream ∅ H1 H2).
Defined.

Lemma C2_allow_origin_by_status_witness :
  let request := sample_request "POST" "https://envolveai.bot"
                   (JObj [(js "message", JStr (js "Oi"))]) in
  method request ≠ js "OPTIONS"
  ∧ ∃ o, header_Origin request = Some o
         ∧ allow_origin (response (fetch request sample_env 1000 sample_upstream ∅))
           = Some o.
Proof.
  intros request.
  assert (method request ≠ js "OPTIONS") as H1
    by (intros H; vm_compute in H; discriminate H).
  split; [done|].
  destruct (C2_allow_origin_by_status request sample_env 1000 sample_upstream ∅ H1)
    as [Hok _].
  destruct Hok as (o & Ho & _ & Hallow & _); [vm_compute; reflexivity|].
  by exists o.
Defined.

Lemma invalid_message_rejected_witness :
  let parsed := JObj [(js "message", JNum 12345%float)] in
  let request := sample_request "POST" "https://envolveai.bot" parsed in
  (method request = js "POST"
   ∧ origin_passes (header_Origin request) = true
   ∧ (checkRateLimit 1000 1000 (clientIP request) ∅).1 = true
   ∧ request_json request = Ok parsed
   ∧ get_prop parsed (js "message") = Ok (JNum 12345%float)
   ∧ (∀ s, JNum 12345%float ≠ JStr s))
  ∧ status (response (fetch request sample_env 1000 sample_upstream ∅)) = 400
  ∧ upstream_calls (events (fetch request sample_env 1000 sample_upstream ∅)) = [].
Proof.
  intros parsed request.
  assert (method request = js "POST") as H1 by (vm_compute; reflexivity).
  assert (origin_passes (header_Origin request) = true) as H2
    by (vm_compute; reflexivity).
  assert ((checkRateLimit 1000 1000 (clientIP request) ∅).1 = true) as H3
    by (vm_compute; reflexivity).
  assert (request_json request = Ok parsed) as H4 by reflexivity.
  assert (get_prop parsed (js "message") = Ok (JNum 12345%float)) as H5
    by (vm_compute; reflexivity).
  assert (∀ s, JNum 12345%float ≠ JStr s) as H6 by (intros s H; discriminate H).
  split; [done|].
  destruct (invalid_message_rejected request sample_env 1000 sample_upstream ∅
              parsed _ H1 H2 H3 H4 H5 H6) as (Hst & _ & Hcalls & _).
  by split.
Defined.

Lemma C5_null_body_answered_500_witness :
  let request := sample_request "POST" "https://envolveai.bot" JNull in
  (method request = js "POST"
   ∧ origin_passes (header_Origin request) = true
   ∧ (checkRateLimit 1000 1000 (clientIP request) ∅).1 = true
   ∧ request_json request = Ok JNull)
  ∧ status (response (fetch request sample_env 1000 sample_upstream ∅)) = 500.
Proof.
  intros request.
  assert (method request = js "POST") as H1 by (vm_compute; reflexivity).
  assert (origin_passes (header_Origin request) = true) as H2
    by (vm_compute; reflexivity).
  assert ((checkRateLimit 1000 1000 (clientIP request) ∅).1 = true) as H3
    by (vm_compute; reflexivity).
  assert (request_json request = Ok JNull) as H4 by reflexivity.
  split; [done|].
  exact (proj1 (C5_null_body_answered_500 request sample_env 1000 sample_upstream ∅
                  H1 H2 H3 H4)).
Defined.

Lemma C10_empty_message_rejected_witness :
  let props := [(js "message", JStr [])] in
  let request := sample_request "POST" "https://envolveai.bot" (JObj props) in
  (method request = js "POST"
   ∧ origin_passes (header_Origin request) = true
   ∧ (checkRateLimit 1000 1000 (clientIP request) ∅).1 = true
   ∧ request_json request = Ok (JObj props)
   ∧ own_property (js "message") props = JStr [])
  ∧ status (response (fetch request sample_env 1000 sample_upstream ∅)) = 400.
Proof.
  intros props request.
  assert (method request = js "POST") as H1 by (vm_compute; reflexivity).
  assert (origin_passes (header_Origin request) = true) as H2
    by (vm_compute; reflexivity).
  assert ((checkRateLimit 1000 1000 (clientIP request) ∅).1 = true) as H3
    by (vm_compute; reflexivity).
  assert (request_json request = Ok (JObj props)) as H4 by reflexivity.
  assert (own_property (js "message") props = JStr []) as H5
    by (vm_compute; reflexivity).
  split; [done|].
  apply (C10_empty_message_rejected request sample_env 1000 sample_upstream ∅
           props H1 H2 H3 H4 H5).
Defined.



(** * Further properties of the worker *)

(** ** The budget inside one window *)

(** A client with a live record sends further requests inside the window:
    the i-th of them is admitted exactly when the count it reaches is within
    the budget, and every one of them is counted. *)
Lemma checks_live_window (times : list Z) : ∀ ip cache rec,
  cache !! rateKey ip = Some rec →
  (∀ t, t ∈ times → t ≤ resetAt rec) →
  count rec + Z.of_nat (length times) < MAX_SAFE_SUCC →
  (checks times ip cache).1
  = map (λ i, bool_decide (count rec + Z.of_nat i ≤ RATE_LIMIT_REQUESTS))
      (seq 1 (length times))
  ∧ (checks times ip cache).2 !! rateKey ip
    = Some (mkRate (count rec + Z.of_nat (length times)) (resetAt rec)).
Proof.
  induction times as [|t rest IH]; intros ip cache rec Hk Hin Hsafe; simpl.
  - split; [done|]. rewrite Hk. f_equal. destruct rec; simpl. f_equal. lia.
  - simpl in Hsafe.
    rewrite (checkRateLimit_live t ip cache rec Hk) by (apply Hin; left).
    assert (js_incr (count rec) = count rec + 1) as Hinc
      by (apply js_incr_exact; lia).
    destruct (IH ip (<[rateKey ip := bumped rec]> (cleanupRateLimit t cache))
                (bumped rec)) as [Hflags Hrec].
    + apply lookup_insert_eq.
    + intros t' Ht'. simpl. apply Hin. by right.
    + simpl. lia.
    + destruct (checks rest ip _) as [flags cache'] eqn:Hrun. simpl in *.
      split.
      * f_equal.
        -- rewrite Hinc.
           destruct (Z.ltb_spec RATE_LIMIT_REQUESTS (count rec + 1));
             simpl; symmetry; [apply bool_decide_eq_false|apply bool_decide_eq_true];
             lia.
        -- rewrite Hflags, <- (seq_shift (length rest) 1), map_map. apply map_ext.
           intros i. rewrite Hinc. apply bool_decide_ext. lia.
      * rewrite Hrec, Hinc. do 2 f_equal. lia.
Qed.

Lemma checks_app (xs ys : list Z) ip cache :
  checks (xs ++ ys) ip cache
  = let '(f1, c1) := checks xs ip cache in
    let '(f2, c2) := checks ys ip c1 in
    (f1 ++ f2, c2).
Proof.
  revert cache. induction xs as [|t xs IH]; intros cache; simpl.
  - by destruct (checks ys ip cache).
  - destruct (checkRateLimit t t ip cache) as [b c]. rewrite IH.
    destruct (checks xs ip c) as [f1 c1]. by destruct (checks ys ip c1).
Qed.

(** X1.  A client without a live record sends 31 requests inside one
    window: the first thirty are admitted and the thirty-first is
    rejected. *)
Theorem fresh_client_budget t0 (times : list Z) t ip cache :
  match cache !! rateKey ip with
  | Some rec => resetAt rec < t0
  | None => True
  end →
  length times = 29%nat →
  (∀ t', t' ∈ times → t' ≤ t0 + RATE_LIMIT_WINDOW) →
  t ≤ t0 + RATE_LIMIT_WINDOW →
  (checks (t0 :: times ++ [t]) ip cache).1 = replicate 30 true ++ [false].
Proof.
  intros Hstart Hlen Hin Ht.
  change (t0 :: times ++ [t]) with ((t0 :: times) ++ [t]). rewrite checks_app.
  destruct (thirty_admitted t0 times ip cache Hstart Hlen Hin) as [Hf Hr].
  destruct (checks (t0 :: times) ip cache) as [f1 c1]. simpl in Hf, Hr.
  simpl. rewrite (checkRateLimit_live t ip c1 _ Hr) by (simpl; lia).
  by rewrite Hf.
Qed.

(** X2.  Once the count has reached the budget, every further request
    inside the window is rejected, and each of them is still counted. *)
Theorem over_budget_stays_rejected (times : list Z) ip cache rec :
  cache !! rateKey ip = Some rec →
  (∀ t, t ∈ times → t ≤ resetAt rec) →
  RATE_LIMIT_REQUESTS ≤ count rec →
  count rec + Z.of_nat (length times) < MAX_SAFE_SUCC →
  (checks times ip cache).1 = replicate (length times) false
  ∧ (checks times ip cache).2 !! rateKey ip
    = Some (mkRate (count rec + Z.of_nat (length times)) (resetAt rec)).
Proof.
  intros Hk Hin Hover Hsafe.
  destruct (checks_live_window times ip cache rec Hk Hin Hsafe) as [Hf Hr].
  split; [|done]. rewrite Hf.
  assert (∀ l : list nat, Forall (λ i, 1 ≤ i)%nat l →
            map (λ i, bool_decide (count rec + Z.of_nat i ≤ RATE_LIMIT_REQUESTS)) l
            = replicate (length l) false) as Hall.
  { induction 1 as [|i l Hi _ IH]; simpl; [done|]. f_equal; [|done].
    apply bool_decide_eq_false. lia. }
  rewrite Hall, length_seq; [done|].
  apply Forall_forall. intros i Hi. apply elem_of_seq in Hi. lia.
Qed.

(** X3.  Requests do not move the window: one request at [t0], the rest of
    the budget at the last millisecond of its window and a full budget one
    millisecond later, sixty requests in all, are all admitted. *)
Theorem burst_across_window_boundary t0 ip cache :
  match cache !! rateKey ip with
  | Some rec => resetAt rec < t0
  | None => True
  end →
  let last := t0 + RATE_LIMIT_WINDOW in
  (checks (t0 :: replicate 29 last ++ replicate 30 (last + 1)) ip cache).1
  = replicate 60 true.
Proof.
  intros Hstart last.
  change (t0 :: replicate 29 last ++ replicate 30 (last + 1))
    with ((t0 :: replicate 29 last) ++ replicate 30 (last + 1)).
  rewrite checks_app.
  destruct (thirty_admitted t0 (replicate 29 last) ip cache Hstart) as [Hf Hr].
  { apply length_replicate. }
  { intros t Ht. apply elem_of_replicate in Ht as [-> _]. subst last. lia. }
  destruct (checks (t0 :: replicate 29 last) ip cache) as [f1 c1]. simpl in Hf, Hr.
  destruct (thirty_admitted (last + 1) (replicate 29 (last + 1)) ip c1) as [Hf2 _].
  { rewrite Hr. simpl. subst last. lia. }
  { apply length_replicate. }
  { intros t Ht. apply elem_of_replicate in Ht as [-> _]. unfold RATE_LIMIT_WINDOW. lia. }
  change (replicate 30 (last + 1)) with ((last + 1) :: replicate 29 (last + 1)).
  destruct (checks _ ip c1) as [f2 c2]. simpl in Hf2. by rewrite Hf, Hf2.
Qed.

(** ** Sweeping *)

(** X4.  Two sweeps amount to one sweep at the later time; in particular a
    sweep repeated at the same time changes nothing. *)
Theorem cleanup_cleanup (t1 t2 : Z) (cache : gmap js_string RateRecord) :
  cleanupRateLimit t2 (cleanupRateLimit t1 cache)
  = cleanupRateLimit (Z.max t1 t2) cache.
Proof.
  apply map_eq. intros key. rewrite !cleanup_lookup.
  destruct (cache !! key) as [rec|]; [|done].
  destruct (Z.ltb_spec (resetAt rec) t1), (Z.ltb_spec (resetAt rec) (Z.max t1 t2));
    try lia; try done;
    destruct (Z.ltb_spec (resetAt rec) t2); try lia; done.
Qed.

(** X5.  A check adds no key but the client's own, and the client always
    has a record afterwards. *)
Theorem checkRateLimit_keys (now : Z) (ip : js_string)
    (cache : gmap js_string RateRecord) :
  let after := (checkRateLimit now now ip cache).2 in
  is_Some (after !! rateKey ip)
  ∧ ∀ key, is_Some (after !! key) → key = rateKey ip ∨ is_Some (cache !! key).
Proof.
  intros after. subst after. split.
  - unfold checkRateLimit. cbv zeta.
    destruct (cleanupRateLimit now cache !! rateKey ip) as [old|]; simpl;
      [destruct (resetAt old <? now); simpl;
       [|destruct (RATE_LIMIT_REQUESTS <? js_incr (count old)); simpl]|];
      rewrite lookup_insert_eq; by eexists.
  - intros key [rec Hk]. destruct (decide (key = rateKey ip)) as [|Hne]; [by left|].
    right. rewrite checkRateLimit_other in Hk by done.
    rewrite cleanup_lookup in Hk. destruct (cache !! key); [by eexists|done].
Qed.

(** ** What an invocation does to the cache *)

Lemma cache_after_spec request env now upstream cache :
  cache_after (fetch request env now upstream cache)
  = if bool_decide (method request = js "POST")
       && origin_passes (header_Origin request)
    then (checkRateLimit now now (clientIP request) cache).2
    else cache.
Proof.
  destruct (decide (method request = js "OPTIONS")) as [Ho|Ho].
  { rewrite (fetch_options _ _ _ _ _ Ho), Ho. done. }
  destruct (decide (method request = js "POST")) as [Hp|Hp].
  - rewrite (fetch_post _ _ _ _ _ Hp), (bool_decide_true _ Hp). simpl.
    destruct (origin_passes _); [|done].
    destruct (checkRateLimit _ _ _ _) as [[] cache']; [|done].
    by destruct (tryBlock _ _ _ _) as [[] ?].
  - rewrite (fetch_other_method _ _ _ _ _ Ho Hp), (bool_decide_false _ Hp). done.
Qed.

(** X7.  The cache changes through the rate-limit check only.  A preflight,
    a request with another method than POST and a POST refused for its
    origin leave it as it is; a POST that passes the origin check is counted
    whatever its body is and whatever the upstream does: another request
    with the same origin and client address, another key or another
    upstream leave the same cache. *)
Theorem cache_changes_only_through_limiter request env now upstream cache :
  let after := cache_after (fetch request env now upstream cache) in
  (method request ≠ js "POST" → after = cache)
  ∧ (origin_passes (header_Origin request) = false → after = cache)
  ∧ (method request = js "POST" → origin_passes (header_Origin request) = true →
     after = (checkRateLimit now now (clientIP request) cache).2
     ∧ ∀ request' env' upstream',
         method request' = js "POST" →
         header_Origin request' = header_Origin request →
         header_CF_Connecting_IP request' = header_CF_Connecting_IP request →
         cache_after (fetch request' env' now upstream' cache) = after).
Proof.
  intros after. subst after. rewrite cache_after_spec. split; [|split].
  - intros Hm. by rewrite (bool_decide_false _ Hm).
  - intros ->. by rewrite andb_false_r.
  - intros Hm Ho. rewrite (bool_decide_true _ Hm), Ho. split; [done|].
    intros request' env' upstream' Hm' Ho' Hip'.
    rewrite cache_after_spec, (bool_decide_true _ Hm'), Ho', Ho.
    unfold clientIP. by rewrite Hip'.
Qed.

(** X8.  Requests without a usable [CF-Connecting-IP] header (absent or empty),
    and requests whose header is the text "unknown", are counted in one
    shared record: after one of them starts a window, another one inside
    that window finds [count = 1] and makes it 2. *)
Theorem unknown_clients_share_record r1 r2 env t1 t2 upstream cache :
  (∀ r, r = r1 ∨ r = r2 →
     method r = js "POST" ∧ origin_passes (header_Origin r) = true
     ∧ (header_CF_Connecting_IP r = None
        ∨ header_CF_Connecting_IP r = Some []
        ∨ header_CF_Connecting_IP r = Some (js "unknown"))) →
  match cache !! js "rate_unknown" with
  | Some rec => resetAt rec < t1
  | None => True
  end →
  t2 ≤ t1 + RATE_LIMIT_WINDOW →
  let cache1 := cache_after (fetch r1 env t1 upstream cache) in
  let cache2 := cache_after (fetch r2 env t2 upstream cache1) in
  cache1 !! js "rate_unknown" = Some (mkRate 1 (t1 + RATE_LIMIT_WINDOW))
  ∧ cache2 !! js "rate_unknown" = Some (mkRate 2 (t1 + RATE_LIMIT_WINDOW)).
Proof.
  intros Hreq Hstart Hwin cache1 cache2. subst cache1 cache2.
  assert (∀ r, r = r1 ∨ r = r2 → clientIP r = js "unknown") as Hip.
  { intros r Hr. destruct (Hreq r Hr) as (_ & _ & [H|[H|H]]);
      unfold clientIP; by rewrite H. }
  destruct (Hreq r1 (or_introl eq_refl)) as (Hp1 & Ho1 & _).
  destruct (Hreq r2 (or_intror eq_refl)) as (Hp2 & Ho2 & _).
  rewrite !cache_after_spec, Hp1, Hp2, Ho1, Ho2.
  rewrite (Hip r1 (or_introl eq_refl)), (Hip r2 (or_intror eq_refl)). simpl.
  rewrite (checkRateLimit_expired t1 (js "unknown") cache Hstart). simpl.
  split; [apply (lookup_insert_eq (M:=gmap js_string))|].
  erewrite checkRateLimit_live;
    [|apply (lookup_insert_eq (M:=gmap js_string))|simpl; lia].
  simpl. apply lookup_insert_eq.
Qed.

(** ** What goes upstream *)

(** X10.  An invocation calls the upstream at most once, and only for an admitted
    POST whose [message] is a non-empty string; the request it sends is
    built from that message and the body's [contents]. *)
Theorem upstream_calls_spec request env now upstream cache :
  let calls := upstream_calls (events (fetch request env now upstream cache)) in
  calls = []
  ∨ (method request = js "POST"
     ∧ origin_passes (header_Origin request) = true
     ∧ (checkRateLimit now now (clientIP request) cache).1 = true
     ∧ ∃ parsed c m contents,
         request_json request = Ok parsed
         ∧ get_prop parsed (js "message") = Ok (JStr (c :: m))
         ∧ get_prop parsed (js "contents") = Ok contents
         ∧ calls = [ upstreamRequest env
                       (geminiRequest contents (substring 0 1000 (c :: m))) ]).
Proof.
  intros calls. subst calls.
  destruct (decide (method request = js "OPTIONS")) as [Ho|Ho];
    [rewrite fetch_options by done; by left|].
  destruct (decide (method request = js "POST")) as [Hp|Hp];
    [|rewrite fetch_other_method by done; by left].
  rewrite fetch_post by done.
  destruct (origin_passes _) eqn:Hpass; [|by left].
  destruct (checkRateLimit _ _ _ _) as [[] cache'] eqn:Hchk; [|by left].
  rewrite tryBlock_paths.
  destruct (request_json request) as [parsed|e] eqn:Hjson; [|by left].
  destruct (get_prop parsed (js "message")) as [message|e] eqn:Hmsg; [|by left].
  destruct message as [| |b|x|[|c m]|xs|props]; try by left.
  destruct (get_prop parsed (js "contents")) as [contents|e] eqn:Hc; [|by left].
  right. do 3 (split; [done|]). exists parsed, c, m, contents.
  do 3 (split; [done|]). cbv zeta.
  upstream_paths upstream;
    reflexivity.
Qed.

(** X11.  A body with a truthy [contents] has it forwarded as it is: the message
    only has to be a non-empty string and is neither sent nor cut. *)
Theorem contents_forwarded_verbatim request env now upstream cache parsed m contents :
  method request = js "POST" →
  origin_passes (header_Origin request) = true →
  (checkRateLimit now now (clientIP request) cache).1 = true →
  request_json request = Ok parsed →
  get_prop parsed (js "message") = Ok (JStr m) →
  m ≠ [] →
  get_prop parsed (js "contents") = Ok contents →
  truthy contents = true →
  upstream_calls (events (fetch request env now upstream cache))
  = [ upstreamRequest env
        (JObj [ (js "contents", contents);
                (js "generationConfig", generationConfig) ]) ].
Proof.
  intros Hpost Hpass Hadm Hjson Hmsg Hne Hc Htruthy.
  rewrite (fetch_admitted _ _ _ _ _ Hpost Hpass Hadm), tryBlock_paths, Hjson, Hmsg.
  destruct m as [|c m]; [done|]. rewrite Hc. cbv zeta.
  unfold geminiRequest. rewrite Htruthy.
  upstream_paths upstream;
    reflexivity.
Qed.

(** X12.  Every request sent upstream goes to the fixed URL by POST, carries the
    configured key and the fixed generation parameters; the caller decides
    about [contents] only. *)
Theorem upstream_request_fixed_parts request env now upstream cache rq :
  EvFetch rq ∈ events (fetch request env now upstream cache) →
  up_url rq = GEMINI_URL
  ∧ up_method rq = js "POST"
  ∧ up_headers rq = [ (js "Content-Type", js "application/json");
                      (js "x-goog-api-key", GEMINI_API_KEY env) ]
  ∧ ∃ contents, up_body rq = JObj [ (js "contents", contents);
                                    (js "generationConfig", generationConfig) ].
Proof.
  intros Hin.
  destruct (upstream_call_inv _ _ _ _ _ _ Hin)
    as (_ & _ & _ & parsed & c & m & contents & _ & _ & _ & ->).
  do 3 (split; [done|]). by eexists.
Qed.

(** ** Responses *)

(** Every response to a request other than OPTIONS is built by
    [jsonResponse]. *)
Lemma from_ok_eq {A} (r : result A) (H : is_ok r) : r = Ok (from_ok r H).
Proof. destruct r; [reflexivity|destruct H]. Qed.

Lemma response_is_jsonResponse request env now upstream cache :
  method request ≠ js "OPTIONS" →
  ∃ data st origin,
    jsonResponse data (Some st) origin
    = Ok (response (fetch request env now upstream cache)).
Proof.
  intros Ho.
  destruct (decide (method request = js "POST")) as [Hp|Hp];
    [|rewrite fetch_other_method by done; eexists _, _, _; apply from_ok_eq].
  rewrite fetch_post by done.
  destruct (origin_passes _); [|eexists _, _, _; apply from_ok_eq].
  destruct (checkRateLimit _ _ _ _) as [[] cache'];
    [|eexists _, _, _; apply from_ok_eq].
  pose proof (tryBlock_cases request env upstream (header_Origin request)) as Hc.
  destruct (tryBlock _ _ _ _) as [[resp|e] evs];
    [|eexists _, _, _; apply from_ok_eq].
  simpl. destruct Hc as [-> | [(s & Hs & Hc) | (data & Hc)]].
  - eexists _, _, _. apply from_ok_eq.
  - by eexists _, _, _.
  - by eexists _, _, _.
Qed.

(** X14.  Every response to a request other than OPTIONS, success or error, has a
    JSON body and carries the content type, the method and header
    allowances and the three hardening headers. *)
Theorem hardening_headers_everywhere request env now upstream cache :
  method request ≠ js "OPTIONS" →
  let r := response (fetch request env now upstream cache) in
  is_Some (body r)
  ∧ header (js "Content-Type") (headers r) = Some (js "application/json")
  ∧ header (js "Access-Control-Allow-Methods") (headers r) = Some (js "POST, OPTIONS")
  ∧ header (js "Access-Control-Allow-Headers") (headers r) = Some (js "Content-Type")
  ∧ header (js "X-Content-Type-Options") (headers r) = Some (js "nosniff")
  ∧ header (js "X-Frame-Options") (headers r) = Some (js "DENY")
  ∧ header (js "X-XSS-Protection") (headers r) = Some (js "1; mode=block").
Proof.
  intros Ho r. subst r.
  destruct (response_is_jsonResponse request env now upstream cache Ho)
    as (data & st & origin & [-> _]%jsonResponse_ok).
  split; [by eexists|]. repeat split; reflexivity.
Qed.

(** ** The catch-all *)

(** X16.  A body that does not parse: the request has been counted by then,
    nothing is sent upstream, and the answer is 500 with the parser's
    message in the body. *)
Theorem unparsable_body_500 request env now upstream cache e :
  method request = js "POST" →
  origin_passes (header_Origin request) = true →
  (checkRateLimit now now (clientIP request) cache).1 = true →
  request_json request = Throw e →
  let out := fetch request env now upstream cache in
  status (response out) = 500
  ∧ body (response out)
    = Some (JObj [ (js "error", JStr (js "Erro interno do servidor"));
                   (js "message", e) ])
  ∧ events out = [ EvConsoleError (js "Proxy Error:") e ]
  ∧ cache_after out = (checkRateLimit now now (clientIP request) cache).2.
Proof.
  intros Hpost Hpass Hadm Hjson out. subst out.
  by rewrite (fetch_admitted _ _ _ _ _ Hpost Hpass Hadm), tryBlock_paths, Hjson.
Qed.

(** X18.  An upstream call that fails (the call itself throws, or a 2xx answer
    whose body is not JSON): the answer is 500 with the error's message in
    the body, after the one upstream call. *)
Theorem upstream_failure_500 request env now upstream cache rq e :
  EvFetch rq ∈ events (fetch request env now upstream cache) →
  (upstream rq = Throw e
   ∨ ∃ resp, upstream rq = Ok resp ∧ up_ok resp = true ∧ up_json resp = Throw e) →
  let out := fetch request env now upstream cache in
  status (response out) = 500
  ∧ body (response out)
    = Some (JObj [ (js "error", JStr (js "Erro interno do servidor"));
                   (js "message", e) ])
  ∧ events out = [ EvFetch rq; EvConsoleError (js "Proxy Error:") e ].
Proof.
  intros Hin Hfail out. subst out.
  destruct (upstream_call_inv _ _ _ _ _ _ Hin)
    as (Hpost & Hpass & Hadm & parsed & c & m & contents & Hjson & Hmsg & Hc & Hrq).
  rewrite (fetch_admitted _ _ _ _ _ Hpost Hpass Hadm), tryBlock_paths, Hjson, Hmsg, Hc.
  cbv zeta. rewrite <- Hrq.
  destruct Hfail as [->|(resp & -> & Hok & Hj)]; [done|].
  by rewrite Hok, Hj.
Qed.

(** ** The key *)

(** X13.  The configured key reaches the upstream request and nothing else: with
    another key, and an upstream that answers as it did for the first one,
    the response and the cache are the same. *)
Theorem key_only_in_upstream_request request env env' now upstream cache :
  let rekey (rq : UpstreamRequest) :=
    mkUpstreamRequest (up_url rq) (up_method rq)
      [ (js "Content-Type", js "application/json");
        (js "x-goog-api-key", GEMINI_API_KEY env) ]
      (up_body rq) in
  let out := fetch request env now upstream cache in
  let out' := fetch request env' now (λ rq, upstream (rekey rq)) cache in
  response out' = response out ∧ cache_after out' = cache_after out.
Proof.
  intros rekey out out'. subst out out'.
  split; [|by rewrite !cache_after_spec].
  destruct (decide (method request = js "OPTIONS")) as [Ho|Ho];
    [by rewrite !fetch_options|].
  destruct (decide (method request = js "POST")) as [Hp|Hp];
    [|by rewrite !fetch_other_method].
  rewrite !fetch_post by done.
  destruct (origin_passes _); [|done].
  destruct (checkRateLimit _ _ _ _) as [[] cache']; [|done].
  rewrite !tryBlock_paths.
  destruct (request_json request) as [parsed|e]; [|done].
  destruct (get_prop parsed (js "message")) as [message|e]; [|done].
  destruct message as [| |b|x|[|c m]|xs|props]; try done.
  destruct (get_prop parsed (js "contents")) as [contents|e]; [|done].
  cbv zeta.
  change (rekey (upstreamRequest env' ?p)) with (upstreamRequest env p).
  upstream_paths upstream;
    reflexivity.
Qed.

(** * Further properties of the gates *)

(** X9.  The loopback marker is looked for anywhere in the [Origin] value:
    a POST whose origin merely contains the text 127.0.0.1 is not refused
    for its origin, and goes on to the rate limiter. *)
Theorem loopback_marker_anywhere request env now upstream cache prefix suffix :
  method request = js "POST" →
  header_Origin request = Some (prefix ++ LOOPBACK_MARKER ++ suffix) →
  let out := fetch request env now upstream cache in
  response out ≠ originNotAllowed
  ∧ cache_after out = (checkRateLimit now now (clientIP request) cache).2.
Proof.
  intros Hpost Horigin out. subst out.
  assert (origin_passes (header_Origin request) = true) as Hpass.
  { apply origin_passes_spec. eexists. split; [done|]. right. by eexists _, _. }
  split; [|by rewrite cache_after_spec, (bool_decide_true _ Hpost), Hpass].
  rewrite (fetch_post _ _ _ _ _ Hpost), Hpass.
  destruct (checkRateLimit _ _ _ _) as [[] cache']; [|discriminate].
  pose proof (tryBlock_cases request env upstream (header_Origin request)) as Hc.
  destruct (tryBlock _ _ _ _) as [[resp|e] evs]; [|discriminate].
  simpl. destruct Hc as [-> | [(s & Hs & Hc) | (data & Hc)]]; [discriminate|..];
    apply jsonResponse_ok in Hc as [-> _]; intros Heq.
  - apply (f_equal body) in Heq. vm_compute in Heq. discriminate Heq.
  - apply (f_equal status) in Heq. vm_compute in Heq. discriminate Heq.
Qed.

(** X15.  Whatever the method, every response other than the success
    response (status 200) carries the wildcard as
    [Access-Control-Allow-Origin]. *)
Theorem non_success_carries_wildcard request env now upstream cache :
  let r := response (fetch request env now upstream cache) in
  status r ≠ 200 → allow_origin r = Some (js "*").
Proof.
  intros r. subst r.
  destruct (decide (method request = js "OPTIONS")) as [Ho|Ho].
  - by rewrite (fetch_options _ _ _ _ _ Ho).
  - apply (allow_origin_cases request env now upstream cache Ho).
Qed.

(** X17.  A body that parses to something other than an object: the literal
    [null] makes the property read throw and is answered 500; a number, a
    string, a boolean or an array has no [message] and is answered 400.
    Nothing goes upstream in either case. *)
Theorem non_object_bodies request env now upstream cache parsed :
  method request = js "POST" →
  origin_passes (header_Origin request) = true →
  (checkRateLimit now now (clientIP request) cache).1 = true →
  request_json request = Ok parsed →
  (∀ props, parsed ≠ JObj props) →
  parsed ≠ JUndefined →
  let out := fetch request env now upstream cache in
  (parsed = JNull → status (response out) = 500)
  ∧ (parsed ≠ JNull → status (response out) = 400)
  ∧ upstream_calls (events out) = [].
Proof.
  intros Hpost Hpass Hadm Hjson Hobj Hdef out. subst out.
  rewrite (fetch_admitted _ _ _ _ _ Hpost Hpass Hadm), tryBlock_paths, Hjson.
  destruct parsed as [| |b|x|s|xs|props]; try done.
  by destruct (Hobj props).
Qed.

(** * The escaping helpers of the script *)

Lemma html_escape_cases c :
  (html_special c = true
   ∧ html_escape c ∈ [ js "&amp;"; js "&lt;"; js "&gt;"; js "&quot;";
                       js "&#x27;"; js "&#x2F;" ])
  ∨ (html_special c = false ∧ html_escape c = [c]).
Proof.
  unfold html_escape, html_special.
  destruct (N.eqb_spec c 38) as [->|H1]; [left; split; [done|in_list]|].
  destruct (N.eqb_spec c 60) as [->|H2]; [left; split; [done|in_list]|].
  destruct (N.eqb_spec c 62) as [->|H3]; [left; split; [done|in_list]|].
  destruct (N.eqb_spec c 34) as [->|H4]; [left; split; [done|in_list]|].
  destruct (N.eqb_spec c 39) as [->|H5]; [left; split; [done|in_list]|].
  destruct (N.eqb_spec c 47) as [->|H6]; [left; split; [done|in_list]|].
  right. split; [|done]. apply bool_decide_eq_false.
  intros H. entity_cases H; done.
Qed.

Lemma escape_clean (s : js_string) c :
  c ∈ flat_map html_escape s → c ∉ [60; 62; 34; 39; 47]%N.
Proof.
  intros Hin. apply list_elem_of_In, in_flat_map in Hin as (a & _ & Ha).
  apply list_elem_of_In in Ha.
  destruct (html_escape_cases a) as [[_ He]|[Hs He]].
  - entity_cases He; rewrite He in Ha; vm_compute in Ha;
      entity_cases Ha; subst c; intros H; entity_cases H; discriminate H.
  - rewrite He in Ha. apply list_elem_of_singleton in Ha as ->.
    apply bool_decide_eq_false in Hs. intros H. apply Hs. by right.
Qed.

Lemma html_escape_prefix a b (r1 r2 : js_string) :
  html_escape a ++ r1 = html_escape b ++ r2 → a = b ∧ r1 = r2.
Proof.
  unfold html_escape. intros H.
  destruct (N.eqb_spec a 38) as [->|?]; [|
  destruct (N.eqb_spec a 60) as [->|?]; [|
  destruct (N.eqb_spec a 62) as [->|?]; [|
  destruct (N.eqb_spec a 34) as [->|?]; [|
  destruct (N.eqb_spec a 39) as [->|?]; [|
  destruct (N.eqb_spec a 47) as [->|?]]]]]];
  (destruct (N.eqb_spec b 38) as [->|?]; [|
   destruct (N.eqb_spec b 60) as [->|?]; [|
   destruct (N.eqb_spec b 62) as [->|?]; [|
   destruct (N.eqb_spec b 34) as [->|?]; [|
   destruct (N.eqb_spec b 39) as [->|?]; [|
   destruct (N.eqb_spec b 47) as [->|?]]]]]]);
  vm_compute in H; simplify_eq; done.
Qed.

Lemma html_escape_length c : (1 ≤ length (html_escape c))%nat.
Proof.
  destruct (html_escape_cases c) as [[_ He]|[_ ->]]; [|done].
  entity_cases He; rewrite He; vm_compute; lia.
Qed.

Lemma sanitize_length (s : js_string) :
  (length s ≤ length (flat_map html_escape s))%nat.
Proof.
  induction s as [|a s IH]; simpl; [done|].
  rewrite length_app. pose proof (html_escape_length a). lia.
Qed.

Lemma escape_injective (s1 : js_string) : ∀ s2 : js_string,
  flat_map html_escape s1 = flat_map html_escape s2 → s1 = s2.
Proof.
  induction s1 as [|a s1 IH]; intros [|b s2]; simpl; intros H.
  - done.
  - pose proof (html_escape_length b) as Hl. apply (f_equal length) in H.
    rewrite length_app in H. simpl in H. lia.
  - pose proof (html_escape_length a) as Hl. apply (f_equal length) in H.
    rewrite length_app in H. simpl in H. lia.
  - apply html_escape_prefix in H as [-> H]. f_equal. by apply IH.
Qed.

Lemma escape_identity_iff (s : js_string) :
  flat_map html_escape s = s ↔ Forall (λ c, html_special c = false) s.
Proof.
  induction s as [|a s IH]; simpl; [done|].
  destruct (html_escape_cases a) as [[Hs He]|[Hs He]].
  - split.
    + intros H. exfalso. apply (f_equal length) in H.
      rewrite length_app in H. simpl in H.
      pose proof (sanitize_length s).
      assert (4 ≤ length (html_escape a))%nat
        by (entity_cases He; rewrite He; vm_compute; lia).
      lia.
    + intros H. apply Forall_cons in H as [H _]. congruence.
  - rewrite He, Forall_cons. simpl. split.
    + intros [= H]. split; [done|]. by apply IH.
    + intros [_ H]. f_equal. by apply IH.
Qed.

(** X19.  Whatever [sanitizeHTML] is given, a string or not, what it
    returns has no less-than, greater-than, double quote, apostrophe or
    slash left in it; for anything but a string it returns the empty
    string. *)
Theorem sanitizeHTML_output_clean v :
  (∀ c, c ∈ sanitizeHTML v → c ∉ [60; 62; 34; 39; 47]%N)
  ∧ ((∀ s, v ≠ JStr s) → sanitizeHTML v = []).
Proof.
  split.
  - intros c. destruct v as [| |b|x|s|xs|props]; simpl;
      try (intros H; by apply elem_of_nil in H). apply escape_clean.
  - intros Hv. destruct v as [| |b|x|s|xs|props]; try done. by destruct (Hv s).
Qed.

(** X20.  [sanitizeHTML] loses nothing and never shortens: two strings with
    the same result are the same string, and the result is at least as long
    as the argument. *)
Theorem sanitizeHTML_faithful (s1 s2 : js_string) :
  (sanitizeHTML (JStr s1) = sanitizeHTML (JStr s2) → s1 = s2)
  ∧ (length s1 ≤ length (sanitizeHTML (JStr s1)))%nat.
Proof.
  split.
  - simpl. apply escape_injective.
  - simpl. apply sanitize_length.
Qed.

(** X21.  [sanitizeHTML] returns a string unchanged exactly when the string
    has none of the six characters, and escaping twice is escaping once
    exactly then: a second pass over an escaped text escapes its ampersands
    again. *)
Theorem sanitizeHTML_twice (s : js_string) :
  (sanitizeHTML (JStr s) = s ↔ Forall (λ c, html_special c = false) s)
  ∧ (sanitizeHTML (JStr (sanitizeHTML (JStr s))) = sanitizeHTML (JStr s)
     ↔ Forall (λ c, html_special c = false) s).
Proof.
  simpl. split; [apply escape_identity_iff|].
  rewrite <- escape_identity_iff. split.
  - intros H. by apply escape_injective in H.
  - intros H. by rewrite !H.
Qed.

Lemma line_breaks_only (t : js_string) :
  Forall (λ c, c ≠ 60%N) t →
  ∀ pre post,
    flat_map (λ c, if (c =? 10)%N then js "<br>" else [c]) t = pre ++ 60%N :: post →
    ∃ rest, post = js "br>" ++ rest.
Proof.
  induction 1 as [|c t Hc _ IH]; intros pre post Heq; simpl in Heq.
  - by destruct pre.
  - destruct (N.eqb_spec c 10) as [->|Hnl].
    + change (js "<br>") with [60; 98; 114; 62]%N in Heq. simpl in Heq.
      destruct pre as [|p0 pre]; [injection Heq as <-; by eexists|].
      destruct pre as [|p1 pre]; [discriminate Heq|].
      destruct pre as [|p2 pre]; [discriminate Heq|].
      destruct pre as [|p3 pre]; [discriminate Heq|].
      injection Heq as _ _ _ _ Heq. by apply (IH pre).
    + simpl in Heq. destruct pre as [|p0 pre].
      * injection Heq as -> _. done.
      * injection Heq as _ Heq. by apply (IH pre).
Qed.

(** X22.  In what [sanitizeText] returns every less-than sign opens a
    [<br>], and no line feed is left. *)
Theorem sanitizeText_markup v :
  (∀ pre post, sanitizeText v = pre ++ 60%N :: post →
     ∃ rest, post = js "br>" ++ rest)
  ∧ 10%N ∉ sanitizeText v.
Proof.
  destruct v as [| |b|x|s|xs|props];
    try (split; [by intros [|] ?|by intros ?%elem_of_nil]).
  unfold sanitizeText. split.
  - apply line_breaks_only. apply Forall_forall. intros c Hc ->.
    apply (escape_clean s 60%N Hc). by left.
  - intros Hin. apply list_elem_of_In in Hin.
    apply in_flat_map in Hin as (c & _ & Hc). apply list_elem_of_In in Hc.
    destruct (N.eqb_spec c 10) as [Heq|Hnl].
    + vm_compute in Hc. entity_cases Hc; discriminate Hc.
    + by apply list_elem_of_singleton in Hc.
Qed.

(** * The browser side and the worker together *)

Lemma wire_requestBody messages :
  ∃ contents, json_wire (requestBody messages) = Some (JObj [ (js "contents", contents) ]).
Proof. by eexists. Qed.

(** What the worker does with a body written by [callGeminiAPI]. *)
Lemma proxy_refuses_client_body this messages origin ip env now upstream cache :
  let request := proxy_request origin ip (clientRequest this messages) in
  let out := fetch request env now upstream cache in
  events out = []
  ∧ (origin_passes origin = false → response out = originNotAllowed)
  ∧ (origin_passes origin = true →
     (checkRateLimit now now (clientIP request) cache).1 = false →
     response out = rateLimited)
  ∧ (origin_passes origin = true →
     (checkRateLimit now now (clientIP request) cache).1 = true →
     response out = invalidMessage).
Proof.
  intros request out. subst out.
  assert (method request = js "POST") as Hpost by done.
  assert (header_Origin request = origin) as Horigin by done.
  assert (∃ contents, request_json request = Ok (JObj [ (js "contents", contents) ]))
    as [contents Hjson] by (by eexists).
  assert (get_prop (JObj [ (js "contents", contents) ]) (js "message") = Ok JUndefined)
    as Hmsg by (vm_compute; reflexivity).
  rewrite (fetch_post _ _ _ _ _ Hpost), Horigin, tryBlock_paths, Hjson, Hmsg.
  clearbody request. cbv iota.
  destruct (origin_passes origin).
  - destruct (checkRateLimit _ _ _ _) as [[] cache']; simpl;
      (split; [reflexivity|]); (split; [discriminate|]);
      split; intros _ H; first [discriminate H|reflexivity].
  - simpl. split; [reflexivity|]. split; [reflexivity|].
    split; intros H; discriminate H.
Qed.

(** X23.  The body [callGeminiAPI] writes has [contents] and no [message],
    and the worker insists on [message]: whatever the conversation is, a
    request from the browser is answered 403, 429 or 400 (400 once origin
    and rate limit are passed), and nothing is sent upstream. *)
Theorem client_body_refused_by_proxy this messages origin ip env now upstream cache :
  let request := proxy_request origin ip (clientRequest this messages) in
  let out := fetch request env now upstream cache in
  upstream_calls (events out) = []
  ∧ (status (response out) = 403 ∨ status (response out) = 429
     ∨ status (response out) = 400)
  ∧ (origin_passes origin = true →
     (checkRateLimit now now (clientIP request) cache).1 = true →
     response out = invalidMessage).
Proof.
  intros request out.
  pose proof (proxy_refuses_client_body this messages origin ip env now upstream cache)
    as H. cbv zeta in H. fold request in H. fold out in H. clearbody out request.
  destruct H as (Hev & Hbad & Hlim & Hinv).
  rewrite Hev. split; [done|]. split; [|exact Hinv].
  destruct (origin_passes origin);
    [destruct (checkRateLimit _ _ _ _).1;
     [rewrite (Hinv eq_refl eq_refl)|rewrite (Hlim eq_refl eq_refl)]
    |rewrite (Hbad eq_refl)]; vm_compute; auto.
Qed.

(** X24.  Through the worker, [callGeminiAPI] cannot succeed: when the
    status it sees is the one the worker answers with, it throws, with the
    message for 429, the one for 403, or the one that reports status 400. *)
Theorem callGeminiAPI_via_proxy_throws this messages network resp
    origin ip env now upstream cache :
  network (clientRequest this messages) = Ok resp →
  up_status resp
  = status (response (fetch (proxy_request origin ip (clientRequest this messages))
                        env now upstream cache)) →
  (callGeminiAPI this messages network).1
  = Throw (JStr (if up_status resp =? 429
                 then js "Limite de requisições atingido. Aguarde alguns segundos."
                 else if up_status resp =? 403
                 then js "Acesso não autorizado. Verifique a configuração do proxy."
                 else js "Erro ao processar: 400")).
Proof.
  intros Hnet Hst.
  pose proof (proxy_refuses_client_body this messages origin ip env now upstream cache)
    as H. cbv zeta in H.
  set (request := proxy_request origin ip (clientRequest this messages)) in *.
  set (out := fetch request env now upstream cache) in *. clearbody out request.
  destruct H as (_ & Hbad & Hlim & Hinv).
  assert (up_status resp = 403 ∨ up_status resp = 429 ∨ up_status resp = 400) as Hs.
  { rewrite Hst. destruct (origin_passes origin);
      [destruct (checkRateLimit _ _ _ _).1;
       [rewrite (Hinv eq_refl eq_refl)|rewrite (Hlim eq_refl eq_refl)]
      |rewrite (Hbad eq_refl)]; vm_compute; auto. }
  clear Hst Hbad Hlim Hinv.
  unfold callGeminiAPI. unfold global_fetch. rewrite Hnet.
  unfold up_ok. destruct resp as [st text parsed]. simpl in Hs |- *.
  destruct Hs as [Hs|[Hs|Hs]]; subst st; vm_compute; reflexivity.
Qed.

(** * The browser side on its own *)

Lemma callGeminiAPI_calls this messages network :
  upstream_calls (callGeminiAPI this messages network).2
  = [ clientRequest this messages ].
Proof.
  unfold callGeminiAPI. unfold global_fetch.
  destruct (network _) as [resp|e]; [|reflexivity]. simpl.
  destruct (up_ok resp); simpl.
  - destruct (up_json resp) as [data|e]; [|reflexivity]. simpl.
    destruct (get_prop data _) as [candidates|e]; [|reflexivity]. simpl.
    destruct (truthy candidates); [|reflexivity].
    destruct (get_index0 candidates) as [first|e]; [|reflexivity]. simpl.
    destruct (truthy first); [|reflexivity].
    destruct (get_prop first _) as [firstContent|e]; [|reflexivity]. simpl.
    destruct (truthy firstContent); [|reflexivity].
    destruct (get_prop firstContent _) as [parts|e]; [|reflexivity]. simpl.
    destruct (get_index0 parts) as [part|e]; [|reflexivity]. simpl.
    by destruct (get_prop part _).
  - destruct (up_status resp =? 429); [reflexivity|].
    by destruct (up_status resp =? 403).
Qed.

(** X25.  [callGeminiAPI] makes exactly one request, a POST to [apiUrl] with
    a body that has [contents] only; the key header is sent only in direct
    mode with a non-empty key, never through the proxy. *)
Theorem callGeminiAPI_one_request this messages network :
  let rq := clientRequest this messages in
  upstream_calls (callGeminiAPI this messages network).2 = [ rq ]
  ∧ up_url rq = apiUrl this
  ∧ up_method rq = js "POST"
  ∧ (∃ contents, up_body rq = JObj [ (js "contents", contents) ])
  ∧ header (js "x-goog-api-key") (up_headers rq)
    = (if useProxy this then None
       else match apiKey this with
            | Some (c :: key) => Some (c :: key)
            | _ => None
            end).
Proof.
  intros rq. subst rq. split; [|split; [done|split; [done|split; [by eexists|]]]].
  - apply callGeminiAPI_calls.
  - unfold clientRequest, clientHeaders. simpl.
    destruct (apiKey this) as [[|c key]|], (useProxy this); reflexivity.
Qed.

(** X26.  [callGeminiAPI] returns a text only for an answer with a status in
    200-299 whose JSON has a truthy [candidates[0].content]; whenever it
    throws instead, the error it throws is the last thing it logged. *)
Theorem callGeminiAPI_outcomes this messages network :
  let run := callGeminiAPI this messages network in
  (∀ text, run.1 = Ok text →
     ∃ resp data candidates first firstContent,
       network (clientRequest this messages) = Ok resp
       ∧ up_ok resp = true
       ∧ up_json resp = Ok data
       ∧ get_prop data (js "candidates") = Ok candidates
       ∧ get_index0 candidates = Ok first
       ∧ get_prop first (js "content") = Ok firstContent
       ∧ truthy firstContent = true
       ∧ run.2 = [ EvFetch (clientRequest this messages) ])
  ∧ (∀ error, run.1 = Throw error →
       last run.2 = Some (EvConsoleError (js "Gemini API Call Error:") error)).
Proof.
  intros run. subst run. unfold callGeminiAPI. unfold global_fetch.
  destruct (network _) as [resp|e] eqn:Hnet; simpl; [|thrown].
  destruct (up_ok resp) eqn:Hok; simpl.
  - destruct (up_json resp) as [data|e] eqn:Hdata; simpl; [|thrown].
    destruct (get_prop data _) as [candidates|e] eqn:Hcand; simpl; [|thrown].
    destruct (truthy candidates); simpl; [|thrown].
    destruct (get_index0 candidates) as [first|e] eqn:Hfirst; simpl; [|thrown].
    destruct (truthy first); simpl; [|thrown].
    destruct (get_prop first _) as [firstContent|e] eqn:Hcontent; simpl; [|thrown].
    destruct (truthy firstContent) eqn:Htruthy; simpl; [|thrown].
    destruct (get_prop firstContent _) as [parts|e]; simpl; [|thrown].
    destruct (get_index0 parts) as [part|e]; simpl; [|thrown].
    destruct (get_prop part _) as [text|e]; simpl; [|thrown].
    split; [|discriminate]. intros ? _.
    by eexists resp, data, candidates, first, firstContent.
  - destruct (up_status resp =? 429); [|destruct (up_status resp =? 403)];
      simpl; thrown.
Qed.

(** X27.  [sendMessage] adds the user's message and the answer to the
    history, in this order, exactly when the call succeeds, and leaves the
    history as it was when the prompt or the call fails; the one request it
    sends lists the prompt as a user turn, then the history so far (an
    assistant entry as a model turn, any other as a user turn), then the
    new message as a user turn. *)
Theorem sendMessage_history this userMessage scenario phase systemPrompt network :
  let run := sendMessage this userMessage scenario phase systemPrompt network in
  let turn (who : js_string) (text : js_value) :=
    JObj [ (js "parts", JArr [ JObj [ (js "text", text) ] ]);
           (js "role", JStr who) ] in
  (∀ response, run.1.1 = Ok response →
     conversationHistory run.2
     = conversationHistory this
       ++ [ mkChatMessage (js "user") userMessage;
            mkChatMessage (js "assistant") response ])
  ∧ (∀ error, run.1.1 = Throw error →
       conversationHistory run.2 = conversationHistory this)
  ∧ (∀ prompt, systemPrompt = Ok prompt →
       up_body <$> upstream_calls run.1.2
       = [ JObj [ (js "contents",
                   JArr (turn (js "user") prompt
                         :: map (λ msg,
                              turn (if bool_decide (role msg = js "assistant")
                                    then js "model" else js "user")
                                (content msg))
                              (conversationHistory this)
                         ++ [ turn (js "user") userMessage ])) ] ]).
Proof.
  intros run turn. subst run turn. unfold sendMessage. cbv zeta.
  destruct systemPrompt as [prompt|e]; simpl;
    [|split; [discriminate|split; [done|discriminate]]].
  match goal with |- context [callGeminiAPI ?t ?m network] =>
    pose proof (callGeminiAPI_calls t m network) as Hcalls;
    destruct (callGeminiAPI t m network) as [[text|e] evs] end; simpl in *.
  - split; [by intros ? [= ->]|]. split; [discriminate|].
    intros ? [= <-]. rewrite Hcalls. simpl. unfold requestBody. simpl.
    by rewrite map_app.
  - split; [discriminate|]. split; [done|].
    intros ? [= <-].
    unfold upstream_calls in *. rewrite omap_app. simpl. rewrite app_nil_r.
    rewrite Hcalls. simpl. unfold requestBody. simpl. by rewrite map_app.
Qed.

(** * Instances of the further properties *)

Lemma fresh_client_budget_witness :
  (match (∅ : gmap js_string RateRecord) !! rateKey (js "1.2.3.4") with
   | Some rec => resetAt rec < 1000
   | None => True
   end
   ∧ length (replicate 29 2000) = 29%nat
   ∧ (∀ t', t' ∈ replicate 29 2000 → t' ≤ 1000 + RATE_LIMIT_WINDOW)
   ∧ 61000 ≤ 1000 + RATE_LIMIT_WINDOW)
  ∧ (checks (1000 :: replicate 29 2000 ++ [61000]) (js "1.2.3.4") ∅).1
    = replicate 30 true ++ [false].
Proof.
  assert (match (∅ : gmap js_string RateRecord) !! rateKey (js "1.2.3.4") with
          | Some rec => resetAt rec < 1000
          | None => True
          end) as H1 by (vm_compute; exact I).
  assert (length (replicate 29 2000) = 29%nat) as H2 by reflexivity.
  assert (∀ t', t' ∈ replicate 29 2000 → t' ≤ 1000 + RATE_LIMIT_WINDOW) as H3
    by (intros t' [-> _]%elem_of_replicate; vm_compute; discriminate).
  assert (61000 ≤ 1000 + RATE_LIMIT_WINDOW) as H4 by (vm_compute; discriminate).
  split; [done|].
  exact (fresh_client_budget 1000 (replicate 29 2000) 61000 (js "1.2.3.4") ∅ H1 H2 H3 H4).
Defined.

Lemma over_budget_stays_rejected_witness :
  let cache : gmap js_string RateRecord := {[ js "rate_1.2.3.4" := mkRate 30 61000 ]} in
  (cache !! rateKey (js "1.2.3.4") = Some (mkRate 30 61000)
   ∧ (∀ t, t ∈ [2000; 3000] → t ≤ 61000)
   ∧ RATE_LIMIT_REQUESTS ≤ 30
   ∧ 30 + 2 < MAX_SAFE_SUCC)
  ∧ (checks [2000; 3000] (js "1.2.3.4") cache).1 = [false; false]
  ∧ (checks [2000; 3000] (js "1.2.3.4") cache).2 !! rateKey (js "1.2.3.4")
    = Some (mkRate 32 61000).
Proof.
  intros cache.
  assert (cache !! rateKey (js "1.2.3.4") = Some (mkRate 30 61000)) as H1
    by (vm_compute; reflexivity).
  assert (∀ t, t ∈ [2000; 3000] → t ≤ 61000) as H2
    by (intros t Ht; entity_cases Ht; subst t; vm_compute; discriminate).
  assert (RATE_LIMIT_REQUESTS ≤ 30) as H3 by (vm_compute; discriminate).
  assert (30 + 2 < MAX_SAFE_SUCC) as H4 by reflexivity.
  split; [done|].
  exact (over_budget_stays_rejected [2000; 3000] (js "1.2.3.4") cache
           (mkRate 30 61000) H1 H2 H3 H4).
Defined.

Lemma burst_across_window_boundary_witness :
  match (∅ : gmap js_string RateRecord) !! rateKey (js "1.2.3.4") with
  | Some rec => resetAt rec < 1000
  | None => True
  end
  ∧ (checks (1000 :: replicate 29 61000 ++ replicate 30 61001) (js "1.2.3.4") ∅).1
    = replicate 60 true.
Proof.
  assert (match (∅ : gmap js_string RateRecord) !! rateKey (js "1.2.3.4") with
          | Some rec => resetAt rec < 1000
          | None => True
          end) as H1 by (vm_compute; exact I).
  split; [done|].
  exact (burst_across_window_boundary 1000 (js "1.2.3.4") ∅ H1).
Defined.

Lemma sweep_bound_two_readings_witness :
  let cache : gmap js_string RateRecord := {[ js "rate_1.2.3.4" := mkRate 5 1000 ]} in
  (1000 ≤ 1001
   ∧ (checkRateLimit 1000 1001 (js "1.2.3.4") cache).2 !! js "rate_1.2.3.4"
     = Some (mkRate 1 61000))
  ∧ 1000 ≤ resetAt (mkRate 1 61000).
Proof.
  intros cache.
  assert (1000 ≤ 1001) as H1 by (vm_compute; discriminate).
  assert ((checkRateLimit 1000 1001 (js "1.2.3.4") cache).2 !! js "rate_1.2.3.4"
          = Some (mkRate 1 61000)) as H2 by (vm_compute; reflexivity).
  split; [exact (conj H1 H2)|].
  exact (sweep_bound_two_readings 1000 1001 (js "1.2.3.4") cache _ _ H1 H2).
Defined.

Lemma unknown_clients_share_record_witness :
  let r1 := mkRequest (js "POST") (Some (js "https://envolveai.bot")) None
              (Ok (JObj [])) in
  let r2 := mkRequest (js "POST") (Some (js "https://www.envolveai.bot"))
              (Some (js "unknown")) (Ok (JObj [])) in
  let cache1 := cache_after (fetch r1 sample_env 1000 sample_upstream ∅) in
  let cache2 := cache_after (fetch r2 sample_env 2000 sample_upstream cache1) in
  ((∀ r, r = r1 ∨ r = r2 →
      method r = js "POST" ∧ origin_passes (header_Origin r) = true
      ∧ (header_CF_Connecting_IP r = None
         ∨ header_CF_Connecting_IP r = Some []
         ∨ header_CF_Connecting_IP r = Some (js "unknown")))
   ∧ match (∅ : gmap js_string RateRecord) !! js "rate_unknown" with
     | Some rec => resetAt rec < 1000
     | None => True
     end
   ∧ 2000 ≤ 1000 + RATE_LIMIT_WINDOW)
  ∧ cache2 !! js "rate_unknown" = Some (mkRate 2 61000).
Proof.
  intros r1 r2 cache1 cache2.
  assert (∀ r, r = r1 ∨ r = r2 →
            method r = js "POST" ∧ origin_passes (header_Origin r) = true
            ∧ (header_CF_Connecting_IP r = None
               ∨ header_CF_Connecting_IP r = Some []
               ∨ header_CF_Connecting_IP r = Some (js "unknown"))) as H1.
  { intros r [->| ->]; (split; [reflexivity|]); (split; [vm_compute; reflexivity|]).
    - by left.
    - by right; right. }
  assert (match (∅ : gmap js_string RateRecord) !! js "rate_unknown" with
          | Some rec => resetAt rec < 1000
          | None => True
          end) as H2 by (vm_compute; exact I).
  assert (2000 ≤ 1000 + RATE_LIMIT_WINDOW) as H3 by (vm_compute; discriminate).
  split; [done|].
  exact (proj2 (unknown_clients_share_record r1 r2 sample_env 1000 2000
                  sample_upstream ∅ H1 H2 H3)).
Defined.

Lemma loopback_marker_anywhere_witness :
  let request := mkRequest (js "POST") (Some (js "https://127.0.0.1.evil.example"))
                   (Some (js "1.2.3.4")) (Ok (JObj [])) in
  (method request = js "POST"
   ∧ header_Origin request
     = Some (js "https://" ++ LOOPBACK_MARKER ++ js ".evil.example"))
  ∧ response (fetch request sample_env 1000 sample_upstream ∅) ≠ originNotAllowed.
Proof.
  intros request.
  assert (method request = js "POST") as H1 by reflexivity.
  assert (header_Origin request
          = Some (js "https://" ++ LOOPBACK_MARKER ++ js ".evil.example")) as H2
    by (vm_compute; reflexivity).
  split; [done|].
  exact (proj1 (loopback_marker_anywhere request sample_env 1000 sample_upstream ∅
                  _ _ H1 H2)).
Defined.

Lemma contents_forwarded_verbatim_witness :
  let history := JArr [ JObj [ (js "parts", JArr [ JObj [ (js "text", JStr (js "Oi")) ] ]) ] ] in
  let parsed := JObj [ (js "message", JStr (js "x")); (js "contents", history) ] in
  let request := sample_request "POST" "https://envolveai.bot" parsed in
  (method request = js "POST"
   ∧ origin_passes (header_Origin request) = true
   ∧ (checkRateLimit 1000 1000 (clientIP request) ∅).1 = true
   ∧ request_json request = Ok parsed
   ∧ get_prop parsed (js "message") = Ok (JStr (js "x"))
   ∧ js "x" ≠ []
   ∧ get_prop parsed (js "contents") = Ok history
   ∧ truthy history = true)
  ∧ upstream_calls (events (fetch request sample_env 1000 sample_upstream ∅))
    = [ upstreamRequest sample_env
          (JObj [ (js "contents", history);
                  (js "generationConfig", generationConfig) ]) ].
Proof.
  intros history parsed request.
  assert (method request = js "POST") as H1 by (vm_compute; reflexivity).
  assert (origin_passes (header_Origin request) = true) as H2
    by (vm_compute; reflexivity).
  assert ((checkRateLimit 1000 1000 (clientIP request) ∅).1 = true) as H3
    by (vm_compute; reflexivity).
  assert (request_json request = Ok parsed) as H4 by reflexivity.
  assert (get_prop parsed (js "message") = Ok (JStr (js "x"))) as H5
    by (vm_compute; reflexivity).
  assert (js "x" ≠ []) as H6 by (intros H; vm_compute in H; discriminate H).
  assert (get_prop parsed (js "contents") = Ok history) as H7
    by (vm_compute; reflexivity).
  assert (truthy history = true) as H8 by reflexivity.
  split; [done|].
  exact (contents_forwarded_verbatim request sample_env 1000 sample_upstream ∅
           parsed (js "x") history H1 H2 H3 H4 H5 H6 H7 H8).
Defined.

Lemma upstream_request_fixed_parts_witness :
  let request := sample_request "POST" "https://envolveai.bot"
                   (JObj [(js "message", JStr (js "Oi"))]) in
  let rq := upstreamRequest sample_env (geminiRequest JUndefined (js "Oi")) in
  EvFetch rq ∈ events (fetch request sample_env 1000 sample_upstream ∅)
  ∧ up_url rq = GEMINI_URL
  ∧ up_headers rq = [ (js "Content-Type", js "application/json");
                      (js "x-goog-api-key", js "secret") ].
Proof.
  intros request rq.
  assert (EvFetch rq ∈ events (fetch request sample_env 1000 sample_upstream ∅)) as H1
    by (vm_compute; apply list_elem_of_here).
  split; [done|].
  destruct (upstream_request_fixed_parts request sample_env 1000 sample_upstream ∅
              rq H1) as (Hurl & _ & Hh & _).
  split; [exact Hurl|exact Hh].
Defined.

Lemma hardening_headers_everywhere_witness :
  let request := sample_request "POST" "https://evil.example" (JObj []) in
  let r := response (fetch request sample_env 1000 sample_upstream ∅) in
  method request ≠ js "OPTIONS"
  ∧ header (js "X-Content-Type-Options") (headers r) = Some (js "nosniff")
  ∧ header (js "X-Frame-Options") (headers r) = Some (js "DENY").
Proof.
  intros request r.
  assert (method request ≠ js "OPTIONS") as H1
    by (intros H; vm_compute in H; discriminate H).
  split; [done|].
  destruct (hardening_headers_everywhere request sample_env 1000 sample_upstream ∅ H1)
    as (_ & _ & _ & _ & Hn & Hf & _).
  split; [exact Hn|exact Hf].
Defined.

Lemma non_success_carries_wildcard_witness :
  let request := sample_request "POST" "https://evil.example" (JObj []) in
  let r := response (fetch request sample_env 1000 sample_upstream ∅) in
  status r ≠ 200 ∧ allow_origin r = Some (js "*").
Proof.
  intros request r.
  assert (status r ≠ 200) as H1 by (intros H; vm_compute in H; discriminate H).
  split; [done|].
  exact (non_success_carries_wildcard request sample_env 1000 sample_upstream ∅ H1).
Defined.

Lemma unparsable_body_500_witness :
  let e := JStr (js "Unexpected token") in
  let request := mkRequest (js "POST") (Some (js "https://envolveai.bot"))
                   (Some (js "1.2.3.4")) (Throw e) in
  (method request = js "POST"
   ∧ origin_passes (header_Origin request) = true
   ∧ (checkRateLimit 1000 1000 (clientIP request) ∅).1 = true
   ∧ request_json request = Throw e)
  ∧ status (response (fetch request sample_env 1000 sample_upstream ∅)) = 500
  ∧ cache_after (fetch request sample_env 1000 sample_upstream ∅)
    !! js "rate_1.2.3.4" = Some (mkRate 1 61000).
Proof.
  intros e request.
  assert (method request = js "POST") as H1 by reflexivity.
  assert (origin_passes (header_Origin request) = true) as H2
    by (vm_compute; reflexivity).
  assert ((checkRateLimit 1000 1000 (clientIP request) ∅).1 = true) as H3
    by (vm_compute; reflexivity).
  assert (request_json request = Throw e) as H4 by reflexivity.
  split; [done|].
  destruct (unparsable_body_500 request sample_env 1000 sample_upstream ∅ e
              H1 H2 H3 H4) as (Hst & _ & _ & Hcache).
  split; [exact Hst|]. rewrite Hcache. vm_compute. reflexivity.
Defined.

Lemma non_object_bodies_witness :
  let request := sample_request "POST" "https://envolveai.bot" JNull in
  (method request = js "POST"
   ∧ origin_passes (header_Origin request) = true
   ∧ (checkRateLimit 1000 1000 (clientIP request) ∅).1 = true
   ∧ request_json request = Ok JNull
   ∧ (∀ props, JNull ≠ JObj props)
   ∧ JNull ≠ JUndefined)
  ∧ status (response (fetch request sample_env 1000 sample_upstream ∅)) = 500.
Proof.
  intros request.
  assert (method request = js "POST") as H1 by (vm_compute; reflexivity).
  assert (origin_passes (header_Origin request) = true) as H2
    by (vm_compute; reflexivity).
  assert ((checkRateLimit 1000 1000 (clientIP request) ∅).1 = true) as H3
    by (vm_compute; reflexivity).
  assert (request_json request = Ok JNull) as H4 by reflexivity.
  assert (∀ props, JNull ≠ JObj props) as H5 by (intros props H; discriminate H).
  assert (JNull ≠ JUndefined) as H6 by (intros H; discriminate H).
  split; [done|].
  destruct (non_object_bodies request sample_env 1000 sample_upstream ∅ JNull
              H1 H2 H3 H4 H5 H6) as (Hnull & _).
  exact (Hnull eq_refl).
Defined.

Lemma upstream_failure_500_witness :
  let e := JStr (js "Network connection lost") in
  let upstream (_ : UpstreamRequest) : result UpstreamResponse := Throw e in
  let request := sample_request "POST" "https://envolveai.bot"
                   (JObj [(js "message", JStr (js "Oi"))]) in
  let rq := upstreamRequest sample_env (geminiRequest JUndefined (js "Oi")) in
  let out := fetch request sample_env 1000 upstream ∅ in
  (EvFetch rq ∈ events out
   ∧ (upstream rq = Throw e
      ∨ ∃ resp, upstream rq = Ok resp ∧ up_ok resp = true ∧ up_json resp = Throw e))
  ∧ status (response out) = 500.
Proof.
  intros e upstream request rq out.
  assert (EvFetch rq ∈ events out) as H1 by (vm_compute; apply list_elem_of_here).
  assert (upstream rq = Throw e
          ∨ ∃ resp, upstream rq = Ok resp ∧ up_ok resp = true ∧ up_json resp = Throw e)
    as H2 by (left; reflexivity).
  split; [done|].
  exact (proj1 (upstream_failure_500 request sample_env 1000 upstream ∅ rq e H1 H2)).
Defined.

Lemma callGeminiAPI_via_proxy_throws_witness :
  let this := mkGeminiController None (js "https://proxy.example") true []
                JNull (JNum 1%float) in
  let messages := [ mkChatMessage (js "user") (JStr (js "Oi")) ] in
  let resp := mkUpstreamResponse 400 (Ok (js "{}")) (Ok (JObj [])) in
  let network (_ : UpstreamRequest) : result UpstreamResponse := Ok resp in
  let origin := Some (js "https://envolveai.bot") in
  let ip := Some (js "1.2.3.4") in
  (network (clientRequest this messages) = Ok resp
   ∧ up_status resp
     = status (response (fetch (proxy_request origin ip (clientRequest this messages))
                           sample_env 1000 sample_upstream ∅)))
  ∧ (callGeminiAPI this messages network).1
    = Throw (JStr (js "Erro ao processar: 400")).
Proof.
  intros this messages resp network origin ip.
  assert (network (clientRequest this messages) = Ok resp) as H1 by reflexivity.
  assert (up_status resp
          = status (response (fetch (proxy_request origin ip (clientRequest this messages))
                                sample_env 1000 sample_upstream ∅))) as H2
    by (vm_compute; reflexivity).
  split; [exact (conj H1 H2)|].
  rewrite (callGeminiAPI_via_proxy_throws this messages network resp origin ip
             sample_env 1000 sample_upstream ∅ H1 H2).
  reflexivity.
Defined.

